(** * ScreenshotPlugin: the full-page capture of the content script and the
      history store of the background service worker

    A shallow embedding of [ContentScriptController.captureFullPage] (the
    content script) and of [handleCapture], [saveScreenshot],
    [downloadScreenshot] and [deleteScreenshot] (background.ts), with the
    browser collaborators (DOM metrics, tab capture, image decoding,
    chrome.storage, chrome.downloads) as explicit oracles. *)

From Stdlib Require Import ZArith QArith.
From stdpp Require Import base option list strings pretty sorting.

Local Open Scope Z_scope.
Local Open Scope string_scope.
Local Open Scope list_scope.

(** ** The content script *)

Module ContentScript.

(** [interface CaptureOptions]: an absent field is [None]. *)
Inductive ImageFormat := png | jpeg.

Record CaptureOptions := {
  quality : option Q;
  format : option ImageFormat;
}.

Definition no_options : CaptureOptions := {| quality := None; format := None |}.

(** The box metrics and the viewport that [captureFullPage] reads. *)
Record Document := {
  body_scrollHeight : Z;
  body_offsetHeight : Z;
  documentElement_clientHeight : Z;
  documentElement_scrollHeight : Z;
  documentElement_offsetHeight : Z;
  body_scrollWidth : Z;
  body_offsetWidth : Z;
  documentElement_clientWidth : Z;
  documentElement_scrollWidth : Z;
  documentElement_offsetWidth : Z;
  innerHeight : Z;
  innerWidth : Z;
}.

(** What the callback of [chrome.runtime.sendMessage] sees:
    [chrome.runtime.lastError] set, or a response object. *)
Inductive TabReply :=
| LastError (message : string)
| Response (success : bool) (dataUrl : string) (error : option string).

(** The browser around one controller. Time is counted in suspensions:
    every [await] of the controller advances it by one. *)
Record Browser := {
  document : Document;
  (** does [canvas.getContext('2d')] return a context? *)
  getContext_2d : bool;
  (** the reply to a [captureVisibleTab] message sent at time [t] *)
  captureVisibleTab : nat -> TabReply;
  (** does an [Image] with this source fire [onload] (or [onerror])? *)
  Image_onload : string -> bool;
  (** how many competing [captureFullPage] messages are delivered while
      the controller is suspended at time [t] *)
  arrivals : nat -> nat;
}.

(** An [HTMLCanvasElement]: its size and the images drawn on it, oldest
    first, each with the offset it was drawn at. *)
Record Canvas := {
  width : Z;
  height : Z;
  drawn : list (string * Z * Z);
}.

(** The value of [canvas.toDataURL(type, quality)]. *)
Record CanvasDataURL := {
  mime : string;
  encoderQuality : Q;
  pixels : Canvas;
}.

(** Calls on the page and on the tile provider, in the order made. *)
Inductive Event :=
| ScrollTo (x y : Z)
| Wait (ms : Z)
| CaptureVisibleArea
| DrawImage (x y : Z).

#[export] Instance Event_eq_dec : EqDecision Event.
Proof. solve_decision. Defined.

(** What the message listener passes to [sendResponse]. *)
Inductive Reply :=
| Success (dataUrl : CanvasDataURL)
| Failure (error : string).

(** The controller's fields, the canvases allocated so far (a field holds
    the index of its canvas), the window's scroll position, and what has
    been observed from outside. [scrollX] and [scrollY] hold the
    position last asked for with [scrollTo], which is where the window
    is whenever that position lies in its scrollable range; beyond it
    the browser clamps, which is not modelled. *)
Record State := {
  isCapturing : bool;
  canvas : option nat;
  ctx : option nat;
  heap : list Canvas;
  scrollX : Z;
  scrollY : Z;
  now : nat;
  log : list Event;
  responses : list Reply;
}.

Definition set_isCapturing (b : bool) (s : State) : State :=
  {| isCapturing := b; canvas := canvas s; ctx := ctx s; heap := heap s;
     scrollX := scrollX s; scrollY := scrollY s; now := now s;
     log := log s; responses := responses s |}.

Definition set_canvas (c : option nat) (s : State) : State :=
  {| isCapturing := isCapturing s; canvas := c; ctx := ctx s; heap := heap s;
     scrollX := scrollX s; scrollY := scrollY s; now := now s;
     log := log s; responses := responses s |}.

Definition set_ctx (c : option nat) (s : State) : State :=
  {| isCapturing := isCapturing s; canvas := canvas s; ctx := c; heap := heap s;
     scrollX := scrollX s; scrollY := scrollY s; now := now s;
     log := log s; responses := responses s |}.

Definition set_heap (h : list Canvas) (s : State) : State :=
  {| isCapturing := isCapturing s; canvas := canvas s; ctx := ctx s; heap := h;
     scrollX := scrollX s; scrollY := scrollY s; now := now s;
     log := log s; responses := responses s |}.

Definition set_scroll (x y : Z) (s : State) : State :=
  {| isCapturing := isCapturing s; canvas := canvas s; ctx := ctx s; heap := heap s;
     scrollX := x; scrollY := y; now := now s;
     log := log s; responses := responses s |}.

Definition set_now (t : nat) (s : State) : State :=
  {| isCapturing := isCapturing s; canvas := canvas s; ctx := ctx s; heap := heap s;
     scrollX := scrollX s; scrollY := scrollY s; now := t;
     log := log s; responses := responses s |}.

Definition emit (e : Event) (s : State) : State :=
  {| isCapturing := isCapturing s; canvas := canvas s; ctx := ctx s; heap := heap s;
     scrollX := scrollX s; scrollY := scrollY s; now := now s;
     log := log s ++ [e]; responses := responses s |}.

Definition respond (rs : list Reply) (s : State) : State :=
  {| isCapturing := isCapturing s; canvas := canvas s; ctx := ctx s; heap := heap s;
     scrollX := scrollX s; scrollY := scrollY s; now := now s;
     log := log s; responses := responses s ++ rs |}.

(** *** Computations of the controller *)

Inductive Result (A : Type) :=
| Ok (a : A)
| Throw (message : string).
Arguments Ok {A} a.
Arguments Throw {A} message.

(** A run returns or throws in a final state, or does not finish within
    its fuel, or reaches a point where a second session would start
    while one is active (which the model does not follow further). *)
Inductive Outcome (A : Type) :=
| Returned (r : Result A) (s : State)
| OutOfFuel
| Overlap.
Arguments Returned {A} r s.
Arguments OutOfFuel {A}.
Arguments Overlap {A}.

Definition M (A : Type) : Type := State -> Outcome A.

#[export] Instance M_ret : MRet M := fun A a s => Returned (Ok a) s.

#[export] Instance M_bind : MBind M := fun A B k m s =>
  match m s with
  | Returned (Ok a) s' => k a s'
  | Returned (Throw e) s' => Returned (Throw e) s'
  | OutOfFuel => OutOfFuel
  | Overlap => Overlap
  end.

Definition throw {A} (message : string) : M A :=
  fun s => Returned (Throw message) s.

Definition modify (f : State -> State) : M unit :=
  fun s => Returned (Ok tt) (f s).

Definition read {A} (f : State -> A) : M A :=
  fun s => Returned (Ok (f s)) s.

(** [try { body } finally { cleanup }], for a cleanup block that neither
    throws nor suspends. *)
Definition try_finally {A} (body : M A) (cleanup : State -> State) : M A :=
  fun s =>
    match body s with
    | Returned r s' => Returned r (cleanup s')
    | OutOfFuel => OutOfFuel
    | Overlap => Overlap
    end.

(** *** Numbers *)

(** The values [Math.ceil(a / b)] takes on integer operands. *)
Inductive number :=
| Fin (z : Z)
| PosInf
| NegInf
| NaN.

Definition Math_ceil_div (a b : Z) : number :=
  if decide (b = 0) then
    if decide (a = 0) then NaN
    else if decide (0 < a) then PosInf else NegInf
  else Fin (- ((- a) `div` b)).

(** [i < n] for a loop counter [i]. *)
Definition lt (i : Z) (n : number) : bool :=
  match n with
  | Fin z => bool_decide (i < z)
  | PosInf => true
  | NegInf => false
  | NaN => false
  end.

Definition Math_max (a b c d e : Z) : Z :=
  a `max` (b `max` (c `max` (d `max` e))).

(** [for (let i = i0; i < n; i++) body(i)] *)
Fixpoint for_loop (fuel : nat) (i : Z) (n : number) (body : Z -> M unit) : M unit :=
  if lt i n then
    match fuel with
    | O => fun _ => OutOfFuel
    | S fuel' => body i ;; for_loop fuel' (i + 1) n body
    end
  else mret tt.

Definition in_progress : string := "截图正在进行中，请稍候".
Definition no_context : string := "无法创建 Canvas 上下文".
Definition capture_failed : string := "截图失败".
Definition context_unavailable : string := "Canvas 上下文不可用".
Definition image_load_failed : string := "图片加载失败".

Section Controller.
Variable B : Browser.

(** [await]: the controller is suspended once. Each competing
    [captureFullPage] message delivered meanwhile runs the listener,
    hence [captureFullPage] up to its first [await]: with the flag set
    it throws at once and the listener answers with the error; with the
    flag clear a second session would start. *)
Definition suspend : M unit := fun s =>
  let n := arrivals B (now s) in
  let s' := set_now (S (now s)) s in
  if decide (n = 0%nat) then Returned (Ok tt) s'
  else if isCapturing s then
    Returned (Ok tt) (respond (replicate n (Failure in_progress)) s')
  else Overlap.

Definition await {A} (promise : M A) : M A := suspend ;; promise.

(** [window.scrollTo(x, y)]: the call is logged and the position asked
    for is recorded as the scroll position. *)
Definition scrollTo (x y : Z) : M unit :=
  modify (fun s => emit (ScrollTo x y) (set_scroll x y s)).

Definition wait (ms : Z) : M unit := modify (emit (Wait ms)).

Definition captureVisibleArea : M string := fun s =>
  let s' := emit CaptureVisibleArea s in
  match captureVisibleTab B (now s) with
  | LastError message => Returned (Throw message) s'
  | Response true dataUrl _ => Returned (Ok dataUrl) s'
  | Response false _ error =>
      Returned (Throw (match error with
                       | Some e => if decide (e = "") then capture_failed else e
                       | None => capture_failed
                       end)) s'
  end.

(** [ctx.drawImage(img, x, y)] on the canvas the context belongs to. *)
Definition drawImage (c : nat) (img : string) (x y : Z) (s : State) : State :=
  emit (DrawImage x y)
    (set_heap (alter (fun cv => {| width := width cv; height := height cv;
                                   drawn := drawn cv ++ [(img, x, y)] |}) c (heap s)) s).

Definition drawImageToCanvas (dataUrl : string) (x y : Z) : M unit := fun s =>
  if Image_onload B dataUrl then
    match ctx s with
    | Some c => Returned (Ok tt) (drawImage c dataUrl x y s)
    | None => Returned (Throw context_unavailable) s
    end
  else Returned (Throw image_load_failed) s.

Definition pageHeight : Z :=
  Math_max (body_scrollHeight (document B)) (body_offsetHeight (document B))
           (documentElement_clientHeight (document B))
           (documentElement_scrollHeight (document B))
           (documentElement_offsetHeight (document B)).

Definition pageWidth : Z :=
  Math_max (body_scrollWidth (document B)) (body_offsetWidth (document B))
           (documentElement_clientWidth (document B))
           (documentElement_scrollWidth (document B))
           (documentElement_offsetWidth (document B)).

Definition viewportHeight : Z := innerHeight (document B).
Definition viewportWidth : Z := innerWidth (document B).

(** [this.canvas = document.createElement('canvas')] and the two
    assignments to its size. *)
Definition createCanvas (w h : Z) : M unit :=
  modify (fun s =>
    set_canvas (Some (length (heap s)))
      (set_heap (heap s ++ [{| width := w; height := h; drawn := [] |}]) s)).

(** [this.ctx = this.canvas.getContext('2d')] *)
Definition getContext : M unit :=
  modify (fun s => set_ctx (if getContext_2d B then canvas s else None) s).

Definition toDataURL (type : string) (q : Q) : M CanvasDataURL := fun s =>
  match canvas s ≫= (fun c => heap s !! c) with
  | Some cv => Returned (Ok {| mime := type; encoderQuality := q; pixels := cv |}) s
  | None => Returned (Throw "Cannot read properties of null") s
  end.

Definition format_name (f : ImageFormat) : string :=
  match f with png => "png" | jpeg => "jpeg" end.

(** The [finally] block of [captureFullPage]. *)
Definition cleanup (s : State) : State :=
  let s' := set_isCapturing false s in
  match canvas s' with
  | Some _ => set_ctx None (set_canvas None s')
  | None => s'
  end.

Definition tile (row col : Z) : M unit :=
  let x := col * viewportWidth in
  let y := row * viewportHeight in
  scrollTo x y ;;
  await (wait 100) ;;
  dataUrl ← await captureVisibleArea ;
  await (drawImageToCanvas dataUrl x y).

(** The [try] block of [captureFullPage]. *)
Definition try_block (fuel : nat) (options : CaptureOptions) : M CanvasDataURL :=
  createCanvas pageWidth pageHeight ;;
  getContext ;;
  c ← read ctx ;
  (if c is None then throw no_context else mret tt) ;;
  originalScrollX ← read scrollX ;
  originalScrollY ← read scrollY ;
  let rows := Math_ceil_div pageHeight viewportHeight in
  let cols := Math_ceil_div pageWidth viewportWidth in
  for_loop fuel 0 rows (fun row =>
    for_loop fuel 0 cols (fun col => tile row col)) ;;
  scrollTo originalScrollX originalScrollY ;;
  let quality := default (9 # 10)%Q (quality options) in
  let format := default png (format options) in
  toDataURL ("image/" +:+ format_name format) quality.

Definition captureFullPage (fuel : nat) (options : CaptureOptions) : M CanvasDataURL :=
  fun s =>
    if isCapturing s then Returned (Throw in_progress) s
    else
      (modify (set_isCapturing true) ;;
       try_finally (try_block fuel options) cleanup) s.

(** The [captureFullPage] branch of the message listener. *)
Definition onMessage_captureFullPage (fuel : nat) (options : option CaptureOptions)
  : State -> option State := fun s =>
  match captureFullPage fuel (default no_options options) s with
  | Returned (Ok dataUrl) s' => Some (respond [Success dataUrl] s')
  | Returned (Throw message) s' => Some (respond [Failure message] s')
  | OutOfFuel | Overlap => None
  end.

End Controller.

(** *** Vocabulary of the properties *)

(** [hoare P m Q]: from a state in [P], if [m] finishes it does so in
    [Q], and it never reaches an overlap of two sessions. *)
Definition hoare {A} (P : State -> Prop) (m : M A)
    (Q : Result A -> State -> Prop) : Prop :=
  forall s, P s ->
    match m s with
    | Returned r s' => Q r s'
    | OutOfFuel => True
    | Overlap => False
    end.

(** [finishes m]: [m] never stops for lack of fuel. *)
Definition finishes {A} (m : M A) : Prop := forall s, m s <> OutOfFuel.

(** [n] is the ceiling of [p / v]: the least integer with [p <= n * v]. *)
Definition is_ceiling (n p v : Z) : Prop := (n - 1) * v < p <= n * v.




(** What holds from the allocation of the canvas to the [finally]
    block: the flag is set, the controller holds the canvas allocated
    by this session, and every competing invocation so far has been
    answered with the in-progress error. *)
Definition active (s0 s : State) : Prop :=
  isCapturing s = true /\
  is_Some (canvas s) /\
  length (heap s) = S (length (heap s0)) /\
  exists n, responses s = responses s0 ++ replicate n (Failure in_progress).

(** The tile provider answers every request with an image, every such
    image decodes, and the canvas has a 2d context. *)
Definition cooperative (B : Browser) : Prop :=
  getContext_2d B = true /\
  forall t, exists d e,
    captureVisibleTab B t = Response true d e /\ Image_onload B d = true.

(** The pairs (row, col) of a grid in row-major order: row outer, col
    inner, both ascending from zero. *)
Definition row_major (rows cols : Z) : list (Z * Z) :=
  row ← seqZ 0 rows; pair row <$> seqZ 0 cols.

(** The pixel offset of the tile at (row, col). *)
Definition offset (B : Browser) (t : Z * Z) : Z * Z :=
  (t.2 * viewportWidth B, t.1 * viewportHeight B).

(** What is done for one tile: scroll to its offset, wait, capture,
    draw at the same offset. *)
Definition tile_events (B : Browser) (t : Z * Z) : list Event :=
  [ScrollTo (offset B t).1 (offset B t).2; Wait 100; CaptureVisibleArea;
   DrawImage (offset B t).1 (offset B t).2].

(** The offsets of the images drawn on a canvas, oldest first. *)
Definition drawn_at (cv : Canvas) : list (Z * Z) :=
  (fun d => (d.1.2, d.2)) <$> drawn cv.

(** The number of tile captures among some events. *)
Definition captures (evs : list Event) : nat :=
  length (filter (fun e => e = CaptureVisibleArea) evs).

(** The image the tile provider hands out for a request made at time
    [t] (none when it answers with an error). *)
Definition tile_at (B : Browser) (t : nat) : string :=
  match captureVisibleTab B t with
  | Response true dataUrl _ => dataUrl
  | _ => ""
  end.

(** The time at which a session started at time [t0] requests its
    [k]-th tile, counted from zero: each tile before it has suspended
    the session three times, and the tile itself twice ahead of the
    request. *)
Definition capture_time (t0 k : nat) : nat := (t0 + 3 * k + 2)%nat.

(** What a session started at time [t0] has drawn once the tiles
    [tiles] are done: for each tile the image the provider returned to
    the request made for that tile, at the offset of the tile. *)
Definition tiles_drawn (B : Browser) (t0 : nat) (tiles : list (Z * Z))
    : list (string * Z * Z) :=
  imap (fun k t => (tile_at B (capture_time t0 k), (offset B t).1, (offset B t).2))
       tiles.

(** The provider has answered the request for the [k]-th tile with an
    image, and the image decodes. *)
Definition provided (B : Browser) (t0 k : nat) : Prop :=
  exists d e, captureVisibleTab B (capture_time t0 k) = Response true d e /\
              Image_onload B d = true.

(** The request made at time [t] ends in the error [e]: the provider
    rejects it, or the image it returns does not load. *)
Definition refused (B : Browser) (t : nat) (e : string) : Prop :=
  match captureVisibleTab B t with
  | LastError message => e = message
  | Response true d _ => Image_onload B d = false /\ e = image_load_failed
  | Response false _ error =>
      e = match error with
          | Some m => if decide (m = "") then capture_failed else m
          | None => capture_failed
          end
  end.

(** The state of the session once the tiles [tiles] are done. *)
Definition tiling (B : Browser) (s0 : State) (tiles : list (Z * Z)) (s : State) : Prop :=
  isCapturing s = true /\
  canvas s = Some (length (heap s0)) /\
  ctx s = Some (length (heap s0)) /\
  now s = (now s0 + 3 * length tiles)%nat /\
  (forall k, (k < length tiles)%nat -> provided B (now s0) k) /\
  log s = log s0 ++ (tiles ≫= tile_events B) /\
  exists cv, heap s !! length (heap s0) = Some cv /\
    width cv = pageWidth B /\ height cv = pageHeight B /\
    drawn_at cv = offset B <$> tiles /\
    drawn cv = tiles_drawn B (now s0) tiles.

(** Since the session started in [s0] only the canvas it allocated can
    have been drawn on: the flag is set, the context is that of this
    canvas if there is one, and the canvases allocated before are as they
    were. *)
Definition isolated (s0 s : State) : Prop :=
  isCapturing s = true /\
  (ctx s = None \/ ctx s = Some (length (heap s0))) /\
  take (length (heap s0)) (heap s) = heap s0.

(** The pixel ([px], [py]) of the page lies in the viewport-sized
    rectangle at the offset [o]. *)
Definition covers (B : Browser) (o : Z * Z) (px py : Z) : Prop :=
  o.1 <= px < o.1 + viewportWidth B /\ o.2 <= py < o.2 + viewportHeight B.

(** The session started in [s0] was stopped by the error [e] at the
    tile [t], the tiles [before] it being done and drawn: for [t] the
    scroll, the wait and the capture have been asked for, the request
    ended in [e], and nothing has been drawn or asked for since. *)
Definition stopped_at (B : Browser) (s0 : State) (before : list (Z * Z))
    (t : Z * Z) (s : State) (e : string) : Prop :=
  (forall k, (k < length before)%nat -> provided B (now s0) k) /\
  refused B (capture_time (now s0) (length before)) e /\
  log s = log s0 ++ (before ≫= tile_events B)
            ++ [ScrollTo (offset B t).1 (offset B t).2; Wait 100;
                CaptureVisibleArea] /\
  exists cv, heap s !! length (heap s0) = Some cv /\
    drawn cv = tiles_drawn B (now s0) before.

(** The session was stopped by the error [e] at one of the tiles of
    the grid, the tiles before it in row-major order being done. *)
Definition stopped (B : Browser) (rows cols : Z) (s0 s : State) (e : string) : Prop :=
  exists before t rest,
    row_major rows cols = before ++ t :: rest /\
    stopped_at B s0 before t s e.

(** [s] without the record of the responses sent to competing
    invocations. *)
Definition forget_responses (s : State) : State :=
  {| isCapturing := isCapturing s; canvas := canvas s; ctx := ctx s; heap := heap s;
     scrollX := scrollX s; scrollY := scrollY s; now := now s;
     log := log s; responses := [] |}.

(** From two states of an active session that differ in the recorded
    responses only, [m1] and [m2] end alike: with the same result, in
    states that again differ in the recorded responses only, [m2] having
    recorded none. *)
Definition alike {A} (m1 m2 : M A) : Prop :=
  forall s1 s2,
    isCapturing s1 = true -> forget_responses s1 = forget_responses s2 ->
    match m1 s1, m2 s2 with
    | Returned r1 s1', Returned r2 s2' =>
        r1 = r2 /\ isCapturing s1' = true /\
        forget_responses s1' = forget_responses s2' /\
        responses s2' = responses s2
    | OutOfFuel, OutOfFuel => True
    | _, _ => False
    end.

(** [B] without competing messages. *)
Definition quiet (B : Browser) : Browser :=
  {| document := document B; getContext_2d := getContext_2d B;
     captureVisibleTab := captureVisibleTab B; Image_onload := Image_onload B;
     arrivals := fun _ => 0%nat |}.

(** *** Example pages *)

(** A document of [w] by [h] pixels seen through a viewport of [vw] by
    [vh]: the scroll and offset metrics report the page, the client
    metrics the viewport. *)
Definition example_document (w h vw vh : Z) : Document :=
  {| body_scrollHeight := h; body_offsetHeight := h;
     documentElement_clientHeight := vh;
     documentElement_scrollHeight := h; documentElement_offsetHeight := h;
     body_scrollWidth := w; body_offsetWidth := w;
     documentElement_clientWidth := vw;
     documentElement_scrollWidth := w; documentElement_offsetWidth := w;
     innerHeight := vh; innerWidth := vw |}.

(** A browser whose tile provider answers every request. *)
Definition answering (d : Document) : Browser :=
  {| document := d; getContext_2d := true;
     captureVisibleTab := fun t => Response true ("tile@" +:+ pretty t) None;
     Image_onload := fun _ => true;
     arrivals := fun _ => 0%nat |}.

(** A browser whose tile provider answers as the listener of
    background.ts does to an action it has no case for. *)
Definition unanswering (d : Document) : Browser :=
  {| document := d; getContext_2d := true;
     captureVisibleTab := fun _ => Response false "" (Some "Unknown action");
     Image_onload := fun _ => true;
     arrivals := fun _ => 0%nat |}.

(** A browser whose tile provider answers the requests for the first
    two tiles of a session started at time 0 and rejects from the third
    on. *)
Definition interrupted (d : Document) : Browser :=
  {| document := d; getContext_2d := true;
     captureVisibleTab := fun t =>
       if decide (t < 8)%nat then Response true ("tile@" +:+ pretty t) None
       else LastError "The tab was closed.";
     Image_onload := fun _ => true;
     arrivals := fun _ => 0%nat |}.

(** A browser that delivers two competing [captureFullPage] messages
    while the second tile is being captured. *)
Definition contended (d : Document) : Browser :=
  {| document := d; getContext_2d := true;
     captureVisibleTab := fun t => Response true ("tile@" +:+ pretty t) None;
     Image_onload := fun _ => true;
     arrivals := fun t => if decide (t = 4%nat) then 2%nat else 0%nat |}.

(** A controller at rest on a page scrolled to ([x], [y]). *)
Definition idle (x y : Z) : State :=
  {| isCapturing := false; canvas := None; ctx := None; heap := [];
     scrollX := x; scrollY := y; now := 0; log := []; responses := [] |}.

(** A controller in the middle of a session, as a competing invocation
    finds it. *)
Definition busy : State :=
  {| isCapturing := true; canvas := Some 0%nat; ctx := Some 0%nat;
     heap := [{| width := 1000; height := 1000; drawn := [] |}];
     scrollX := 0; scrollY := 0; now := 1; log := [ScrollTo 0 0];
     responses := [] |}.

End ContentScript.

(** ** The background service worker *)

Module Background.

Record ScreenshotData := {
  id : string;
  dataUrl : string;
  timestamp : Z;
  filename : string;
  url : string;
  title : string;
}.

(** The settings object the options page stores under the key
    [settings]. *)
Record Settings := {
  captureMode : string;
  autoDownload : bool;
  saveHistory : bool;
  maxHistory : Z;
  imageQuality : Z;
  filenamePattern : string;
}.

(** [chrome.storage.local], restricted to the two keys in use; an absent
    key is [None]. *)
Record Storage := {
  screenshots : option (list ScreenshotData);
  settings : option Settings;
}.

Inductive Mode := visible | full.

(** [chrome.tabs.Tab]; optional fields are [None] when undefined. *)
Record Tab := {
  tab_id : option Z;
  windowId : Z;
  tab_url : option string;
  tab_title : option string;
}.

(** The two shapes of response the content script's listener sends. *)
Inductive ContentResponse :=
| FullPageSuccess (dataUrl : string)
| FullPageFailure (error : option string).

(** A [Date] and what its local-time getters return. *)
Record Date := {
  getTime : Z;
  getFullYear : Z;
  getMonth : Z;
  getDate : Z;
  getHours : Z;
  getMinutes : Z;
}.

(** Every value thrown in this file is an [Error]; [Throw] carries its
    message. *)
Inductive Result (A : Type) :=
| Ok (a : A)
| Throw (message : string).
Arguments Ok {A} a.
Arguments Throw {A} message.

(** The browser around one request: how each asynchronous call settles
    ([None] for a storage or download call that resolves, [Some m] for
    one that rejects with [Error(m)]). *)
Record Chrome := {
  tabs_captureVisibleTab : Result string;
  tabs_sendMessage : Result ContentResponse;
  Date_now : Date;
  storage_local_get : option string;
  storage_local_set : option string;
  downloads_download : option string;
}.

(** The stored data, the lines written by [console.error] (label and
    message of the error) and the downloads started, oldest first. *)
Record State := {
  storage : Storage;
  console : list (string * string);
  downloads : list (string * string);
}.

Record CaptureResponse := {
  success : bool;
  response_dataUrl : option string;
  response_filename : option string;
  response_error : option string;
}.

Record DeleteResponse := {
  delete_success : bool;
  delete_error : option string;
}.

Definition M (A : Type) : Type := State -> Result A * State.

#[export] Instance M_ret : MRet M := fun A a s => (Ok a, s).

#[export] Instance M_bind : MBind M := fun A B k m s =>
  match m s with
  | (Ok a, s') => k a s'
  | (Throw e, s') => (Throw e, s')
  end.

Definition throw {A} (message : string) : M A := fun s => (Throw message, s).

(** [try { body } catch (error) { handler(error) }] *)
Definition try_catch {A} (body : M A) (handler : string -> M A) : M A :=
  fun s =>
    match body s with
    | (Ok a, s') => (Ok a, s')
    | (Throw e, s') => handler e s'
    end.

Definition console_error (label message : string) : M unit := fun s =>
  (Ok tt, {| storage := storage s; console := console s ++ [(label, message)];
             downloads := downloads s |}).

(** [String(n).padStart(2, '0')] *)
Definition padStart2 (n : Z) : string :=
  let s := pretty n in
  String.concat "" (replicate (2 - String.length s) "0") +:+ s.

Section Worker.
Variable C : Chrome.

(** [await chrome.storage.local.get(['screenshots'])], followed by
    [result.screenshots || []]. *)
Definition storage_get_screenshots : M (list ScreenshotData) := fun s =>
  match storage_local_get C with
  | Some message => (Throw message, s)
  | None => (Ok (default [] (screenshots (storage s))), s)
  end.

(** [await chrome.storage.local.set({ screenshots })] *)
Definition storage_set_screenshots (l : list ScreenshotData) : M unit := fun s =>
  match storage_local_set C with
  | Some message => (Throw message, s)
  | None =>
      (Ok tt, {| storage := {| screenshots := Some l;
                               settings := settings (storage s) |};
                 console := console s; downloads := downloads s |})
  end.

Definition saveScreenshot (screenshot : ScreenshotData) : M unit :=
  try_catch
    (screenshots ← storage_get_screenshots ;
     (* screenshots.unshift(screenshot) *)
     let screenshots := screenshot :: screenshots in
     (* if (screenshots.length > 50) screenshots.splice(50) *)
     let screenshots :=
       if decide (50 < length screenshots)%nat then take 50 screenshots
       else screenshots in
     storage_set_screenshots screenshots)
    (fun error =>
       console_error "Save screenshot error:" error ;;
       throw "Failed to save screenshot to storage").

Definition downloadScreenshot (dataUrl filename : string) : M unit :=
  try_catch
    (fun s =>
       match downloads_download C with
       | Some message => (Throw message, s)
       | None =>
           (Ok tt, {| storage := storage s; console := console s;
                      downloads := downloads s ++ [(dataUrl, filename)] |})
       end)
    (fun error =>
       console_error "Download error:" error ;;
       throw "Failed to download screenshot").

Definition make_filename (date : Date) : string :=
  "screenshot_" +:+ pretty (getFullYear date)
    +:+ padStart2 (getMonth date + 1)
    +:+ padStart2 (getDate date)
    +:+ "_" +:+ padStart2 (getHours date)
    +:+ padStart2 (getMinutes date)
    +:+ "_" +:+ pretty (getTime date) +:+ ".png".

(** [x || fallback] on an optional string: undefined and the empty
    string are falsy. *)
Definition or_else (x : option string) (fallback : string) : string :=
  match x with
  | Some s => if decide (s = "") then fallback else s
  | None => fallback
  end.

Definition handleCapture (mode : Mode) (tab : option Tab) : M CaptureResponse :=
  try_catch
    (tab ← match tab with
           | Some t =>
               match tab_id t with
               | Some i => if decide (i = 0) then throw "No active tab found"
                           else mret t
               | None => throw "No active tab found"
               end
           | None => throw "No active tab found"
           end ;
     dataUrl ← match mode with
               | visible =>
                   fun s => (tabs_captureVisibleTab C, s)
               | full =>
                   response ← (fun s => (tabs_sendMessage C, s)) ;
                   match response with
                   | FullPageFailure error =>
                       throw (or_else error "Full page capture failed")
                   | FullPageSuccess dataUrl => mret dataUrl
                   end
               end ;
     let date := Date_now C in
     let timestamp := getTime date in
     let filename := make_filename date in
     let screenshotData :=
       {| id := "screenshot_" +:+ pretty timestamp;
          dataUrl := dataUrl;
          timestamp := timestamp;
          filename := filename;
          url := or_else (tab_url tab) "";
          title := or_else (tab_title tab) "" |} in
     saveScreenshot screenshotData ;;
     downloadScreenshot dataUrl filename ;;
     mret {| success := true; response_dataUrl := Some dataUrl;
             response_filename := Some filename; response_error := None |})
    (fun error =>
       console_error "Capture error:" error ;;
       mret {| success := false; response_dataUrl := None;
               response_filename := None; response_error := Some error |}).

Definition deleteScreenshot (i : string) : M DeleteResponse :=
  try_catch
    (screenshots ← storage_get_screenshots ;
     let filteredScreenshots := filter (fun s => id s ≠ i) screenshots in
     storage_set_screenshots filteredScreenshots ;;
     mret {| delete_success := true; delete_error := None |})
    (fun error =>
       console_error "Delete screenshot error:" error ;;
       mret {| delete_success := false; delete_error := Some error |}).

End Worker.

(** *** The rest of the worker: listing and the message listener *)

Record HistoryResponse := {
  history_success : bool;
  history_screenshots : option (list ScreenshotData);
  history_error : option string;
}.

(** A message of the union [Message], and of any other action: the
    listener reads [action], and [mode] or [id] in the case of that
    action only. *)
Record Message := {
  action : string;
  message_mode : Mode;
  message_id : string;
}.

(** What the listener passes to [sendResponse]. *)
Inductive Response :=
| CaptureResult (r : CaptureResponse)
| HistoryResult (r : HistoryResponse)
| DeleteResult (r : DeleteResponse)
| ErrorResponse (error : string).

Section Listener.
Variable C : Chrome.

Definition getScreenshotHistory : M HistoryResponse :=
  try_catch
    (screenshots ← storage_get_screenshots C ;
     mret {| history_success := true; history_screenshots := Some screenshots;
             history_error := None |})
    (fun error =>
       console_error "Get history error:" error ;;
       mret {| history_success := false; history_screenshots := None;
               history_error := Some error |}).

(** [promise.then(sendResponse).catch(error => { console.error(label,
    error); sendResponse({ success: false, error: error.message }) })] *)
Definition respond_with {A} (wrap : A -> Response) (label : string)
    (promise : M A) : State -> Response * State := fun s =>
  match promise s with
  | (Ok a, s') => (wrap a, s')
  | (Throw e, s') =>
      (ErrorResponse e,
       {| storage := storage s'; console := console s' ++ [(label, e)];
          downloads := downloads s' |})
  end.

(** The listener registered with [chrome.runtime.onMessage]. *)
Definition onMessage (message : Message) (sender_tab : option Tab)
  : State -> Response * State :=
  if decide (action message = "capture") then
    respond_with CaptureResult "Capture failed:"
      (handleCapture C (message_mode message) sender_tab)
  else if decide (action message = "getHistory") then
    respond_with HistoryResult "Get history failed:" getScreenshotHistory
  else if decide (action message = "deleteScreenshot") then
    respond_with DeleteResult "Delete screenshot failed:"
      (deleteScreenshot C (message_id message))
  else fun s => (ErrorResponse "Unknown action", s).

End Listener.

(** The sequence [getHistory] reports: [result.screenshots || []]. *)
Definition history (s : State) : list ScreenshotData :=
  default [] (screenshots (storage s)).

(** The cap the options page lets the user configure, 50 when no
    settings have been saved. *)
Definition configured_maxHistory (s : State) : Z :=
  match settings (storage s) with
  | Some st => maxHistory st
  | None => 50
  end.

(** *** Vocabulary of the properties *)

(** The storage calls of a request both resolve. *)
Definition storage_works (C : Chrome) : Prop :=
  storage_local_get C = None /\ storage_local_set C = None.

(** The image acquisition of [handleCapture] succeeds with [dataUrl]:
    there is a tab with a usable id, and the capture of the chosen mode
    delivers [dataUrl]. *)
Definition acquires (C : Chrome) (mode : Mode) (tab : option Tab)
    (dataUrl : string) : Prop :=
  (exists t i, tab = Some t /\ tab_id t = Some i /\ i <> 0) /\
  match mode with
  | visible => tabs_captureVisibleTab C = Ok dataUrl
  | full => tabs_sendMessage C = Ok (FullPageSuccess dataUrl)
  end.

(** The record [handleCapture] builds for [dataUrl]. *)
Definition record_of (C : Chrome) (tab : option Tab) (dataUrl : string)
    : ScreenshotData :=
  {| id := "screenshot_" +:+ pretty (getTime (Date_now C));
     dataUrl := dataUrl;
     timestamp := getTime (Date_now C);
     filename := make_filename (Date_now C);
     url := or_else (tab ≫= tab_url) "";
     title := or_else (tab ≫= tab_title) "" |}.

Definition failure (error : string) : CaptureResponse :=
  {| success := false; response_dataUrl := None; response_filename := None;
     response_error := Some error |}.

Definition log_error (label message : string) (s : State) : State :=
  {| storage := storage s; console := console s ++ [(label, message)];
     downloads := downloads s |}.

Definition deleted : DeleteResponse :=
  {| delete_success := true; delete_error := None |}.

(** The sequence is ordered newest first by [timestamp]. *)
Definition newest_first (l : list ScreenshotData) : Prop :=
  StronglySorted (fun a b => timestamp b <= timestamp a) l.

(** Every record carries the id that [handleCapture] derives from its
    timestamp. *)
Definition timestamp_ids (l : list ScreenshotData) : Prop :=
  forall x, x ∈ l -> id x = "screenshot_" +:+ pretty (timestamp x).

(** The local-time fields of [d] are in the ranges of a calendar date
    with a four-digit year. *)
Definition calendar_date (d : Date) : Prop :=
  1000 <= getFullYear d <= 9999 /\
  0 <= getMonth d <= 11 /\
  1 <= getDate d <= 31 /\
  0 <= getHours d <= 23 /\
  0 <= getMinutes d <= 59.

(** [saveScreenshot] for each record of [rs] in turn, the first first. *)
Definition save_all (C : Chrome) (rs : list ScreenshotData) (s : State) : State :=
  foldl (fun st r => (saveScreenshot C r st).2) s rs.

(** The message of the error that stops the acquisition of the image in
    [handleCapture], if one does. *)
Definition acquisition_error (C : Chrome) (mode : Mode) (tab : option Tab)
    : option string :=
  match tab ≫= tab_id with
  | None => Some "No active tab found"
  | Some i =>
      if decide (i = 0) then Some "No active tab found"
      else match mode with
           | visible =>
               match tabs_captureVisibleTab C with
               | Ok _ => None
               | Throw m => Some m
               end
           | full =>
               match tabs_sendMessage C with
               | Ok (FullPageSuccess _) => None
               | Ok (FullPageFailure error) =>
                   Some (or_else error "Full page capture failed")
               | Throw m => Some m
               end
           end
  end.

(** *** Calls that overlap *)

(** An async function as the event loop runs it: it has settled; or it
    takes a step that is not awaited and goes on; or it awaits a
    browser call and is resumed with the outcome of the call in a later
    turn, other functions running in between. *)
Inductive Task (A : Type) : Type :=
| Settled (r : Result A)
| Sync (effect : State -> State) (next : Task A)
| Await {X : Type} (call : M X) (resume : Result X -> Task A).
Arguments Settled {A} r.
Arguments Sync {A} effect next.
Arguments Await {A X} call resume.

#[export] Instance Task_ret : MRet Task := fun A a => Settled (Ok a).

Fixpoint Task_then {A B} (k : A -> Task B) (t : Task A) : Task B :=
  match t with
  | Settled (Ok a) => k a
  | Settled (Throw e) => Settled (Throw e)
  | Sync effect next => Sync effect (Task_then k next)
  | Await call resume => Await call (fun r => Task_then k (resume r))
  end.

#[export] Instance Task_bind : MBind Task := @Task_then.

(** The functions of the worker with their [await]s kept apart. *)
Module Async.

(** [await call] *)
Definition await {X} (call : M X) : Task X :=
  Await call (fun r => Settled r).

Definition throw {A} (message : string) : Task A := Settled (Throw message).

Definition console_error (label message : string) : Task unit :=
  Sync (log_error label message) (Settled (Ok tt)).

(** [try { body } catch (error) { handler(error) }] *)
Fixpoint try_catch {A} (body : Task A) (handler : string -> Task A) : Task A :=
  match body with
  | Settled (Ok a) => Settled (Ok a)
  | Settled (Throw e) => handler e
  | Sync effect next => Sync effect (try_catch next handler)
  | Await call resume => Await call (fun r => try_catch (resume r) handler)
  end.

Section Worker.
Variable C : Chrome.

Definition saveScreenshot (screenshot : ScreenshotData) : Task unit :=
  try_catch
    (screenshots ← await (storage_get_screenshots C) ;
     let screenshots := screenshot :: screenshots in
     let screenshots :=
       if decide (50 < length screenshots)%nat then take 50 screenshots
       else screenshots in
     await (storage_set_screenshots C screenshots))
    (fun error =>
       console_error "Save screenshot error:" error ;;
       throw "Failed to save screenshot to storage").

Definition downloadScreenshot (dataUrl filename : string) : Task unit :=
  try_catch
    (await (fun s =>
       match downloads_download C with
       | Some message => (Throw message, s)
       | None =>
           (Ok tt, {| storage := storage s; console := console s;
                      downloads := downloads s ++ [(dataUrl, filename)] |})
       end))
    (fun error =>
       console_error "Download error:" error ;;
       throw "Failed to download screenshot").

Definition handleCapture (mode : Mode) (tab : option Tab) : Task CaptureResponse :=
  try_catch
    (tab ← match tab with
           | Some t =>
               match tab_id t with
               | Some i => if decide (i = 0) then throw "No active tab found"
                           else mret t
               | None => throw "No active tab found"
               end
           | None => throw "No active tab found"
           end ;
     dataUrl ← match mode with
               | visible =>
                   await (fun s => (tabs_captureVisibleTab C, s))
               | full =>
                   response ← await (fun s => (tabs_sendMessage C, s)) ;
                   match response with
                   | FullPageFailure error =>
                       throw (or_else error "Full page capture failed")
                   | FullPageSuccess dataUrl => mret dataUrl
                   end
               end ;
     let date := Date_now C in
     let timestamp := getTime date in
     let filename := make_filename date in
     let screenshotData :=
       {| id := "screenshot_" +:+ pretty timestamp;
          dataUrl := dataUrl;
          timestamp := timestamp;
          filename := filename;
          url := or_else (tab_url tab) "";
          title := or_else (tab_title tab) "" |} in
     saveScreenshot screenshotData ;;
     downloadScreenshot dataUrl filename ;;
     mret {| success := true; response_dataUrl := Some dataUrl;
             response_filename := Some filename; response_error := None |})
    (fun error =>
       console_error "Capture error:" error ;;
       mret {| success := false; response_dataUrl := None;
               response_filename := None; response_error := Some error |}).

End Worker.

End Async.

(** A function run on its own, every awaited call taking effect at
    once. *)
Fixpoint run {A} (t : Task A) (s : State) : Result A * State :=
  match t with
  | Settled r => (r, s)
  | Sync effect next => run next (effect s)
  | Await call resume => let '(r, s') := call s in run (resume r) s'
  end.

(** The steps up to the next [await]. *)
Fixpoint to_await {A} (t : Task A) (s : State) : Task A * State :=
  match t with
  | Sync effect next => to_await next (effect s)
  | _ => (t, s)
  end.

(** One turn of a suspended function: the call it awaits takes effect
    and the function runs on to its next [await]. *)
Definition turn {A} (t : Task A) (s : State) : Task A * State :=
  match t with
  | Await call resume => let '(r, s') := call s in to_await (resume r) s'
  | _ => to_await t s
  end.

Inductive Who := first | second.

#[export] Instance Who_eq_dec : EqDecision Who.
Proof. solve_decision. Defined.

(** Two functions called one right after the other, and then resumed
    turn by turn in the order of [schedule]. *)
Fixpoint turns {A B} (schedule : list Who) (a : Task A) (b : Task B) (s : State)
  : Task A * Task B * State :=
  match schedule with
  | [] => (a, b, s)
  | first :: schedule => let '(a, s) := turn a s in turns schedule a b s
  | second :: schedule => let '(b, s) := turn b s in turns schedule a b s
  end.

Definition overlapped {A B} (schedule : list Who) (a : Task A) (b : Task B)
    (s : State) : Task A * Task B * State :=
  let '(a, s) := to_await a s in
  let '(b, s) := to_await b s in
  turns schedule a b s.

(** In [l] each of the two functions takes two turns. *)
Definition two_turns_each (l : list Who) : Prop :=
  length (filter (fun w => w = first) l) = 2%nat /\
  length (filter (fun w => w = second) l) = 2%nat.

(** The two functions take their turns alternately. *)
Definition alternately : list Who := [first; second; first; second].

(** *** Examples *)

Definition example_date : Date :=
  {| getTime := 1700000000000; getFullYear := 2023; getMonth := 10;
     getDate := 14; getHours := 22; getMinutes := 13 |}.

Definition example_tab : Tab :=
  {| tab_id := Some 7; windowId := 1;
     tab_url := Some "https://example.org/"; tab_title := Some "Example" |}.

(** A browser in which every call resolves. *)
Definition working : Chrome :=
  {| tabs_captureVisibleTab := Ok "data:image/png;base64,AAAA";
     tabs_sendMessage := Ok (FullPageSuccess "data:image/png;base64,BBBB");
     Date_now := example_date;
     storage_local_get := None; storage_local_set := None;
     downloads_download := None |}.

(** A browser whose storage rejects the write, as it does when the
    quota is exceeded. *)
Definition storage_full : Chrome :=
  {| tabs_captureVisibleTab := Ok "data:image/png;base64,AAAA";
     tabs_sendMessage := Ok (FullPageSuccess "data:image/png;base64,BBBB");
     Date_now := example_date;
     storage_local_get := None;
     storage_local_set := Some "QUOTA_BYTES quota exceeded";
     downloads_download := None |}.

(** A browser whose download call rejects. *)
Definition download_refused : Chrome :=
  {| tabs_captureVisibleTab := Ok "data:image/png;base64,AAAA";
     tabs_sendMessage := Ok (FullPageSuccess "data:image/png;base64,BBBB");
     Date_now := example_date;
     storage_local_get := None; storage_local_set := None;
     downloads_download := Some "Invalid filename" |}.

Definition shot (n : Z) : ScreenshotData :=
  {| id := "screenshot_" +:+ pretty n; dataUrl := "data:image/png;base64,CCCC";
     timestamp := n; filename := "screenshot_" +:+ pretty n +:+ ".png";
     url := ""; title := "" |}.

Definition store (l : list ScreenshotData) (st : option Settings) : State :=
  {| storage := {| screenshots := Some l; settings := st |};
     console := []; downloads := [] |}.

(** The settings of the options page with the cap lowered to 10. *)
Definition ten_at_most : Settings :=
  {| captureMode := "visible"; autoDownload := true; saveHistory := true;
     maxHistory := 10; imageQuality := 90;
     filenamePattern := "screenshot_{date}_{time}" |}.

End Background.

(** ** The history tab of the options page *)

Module Options.
Import Background.

Inductive ToastType := success_toast | error_toast.

(** The fields of [OptionsController] the history tab works on, with the
    toasts shown and the lines written by [console.error]. Other writes
    to the document (loading indicator, grid, pagination buttons) are
    left out. *)
Record State := {
  screenshots : list ScreenshotData;
  filteredScreenshots : list ScreenshotData;
  currentPage : Z;
  toasts : list (string * ToastType);
  console : list (string * string);
}.

Definition itemsPerPage : Z := 12.

(** The page around the controller: the answer to [confirm], the value
    of [chrome.runtime.lastError] in the callback of [sendMessage] (when
    set, the message has reached no listener), and what
    [filterScreenshots] makes of [this.screenshots] with the search term
    and sort order currently entered. *)
Record Page := {
  confirm : bool;
  lastError : option string;
  view : list ScreenshotData -> list ScreenshotData;
}.

Definition showToast (message : string) (type : ToastType) (o : State) : State :=
  {| screenshots := screenshots o; filteredScreenshots := filteredScreenshots o;
     currentPage := currentPage o; toasts := toasts o ++ [(message, type)];
     console := console o |}.

Definition console_error (label message : string) (o : State) : State :=
  {| screenshots := screenshots o; filteredScreenshots := filteredScreenshots o;
     currentPage := currentPage o; toasts := toasts o;
     console := console o ++ [(label, message)] |}.

Definition set_screenshots (l : list ScreenshotData) (o : State) : State :=
  {| screenshots := l; filteredScreenshots := filteredScreenshots o;
     currentPage := currentPage o; toasts := toasts o; console := console o |}.

(** [response.success] and [response.screenshots] of a response of the
    background listener. *)
Definition response_success (r : Response) : bool :=
  match r with
  | CaptureResult c => success c
  | HistoryResult h => history_success h
  | DeleteResult d => delete_success d
  | ErrorResponse _ => false
  end.

Definition response_screenshots (r : Response) : option (list ScreenshotData) :=
  match r with
  | HistoryResult h => history_screenshots h
  | _ => None
  end.

(** [array.slice(start, end)] for integer arguments. *)
Definition slice {A} (l : list A) (start finish : Z) : list A :=
  let len := Z.of_nat (length l) in
  let k := if decide (start < 0) then Z.max (len + start) 0 else Z.min start len in
  let fin := if decide (finish < 0) then Z.max (len + finish) 0 else Z.min finish len in
  take (Z.to_nat (fin - k)) (drop (Z.to_nat k) l).

(** [Math.ceil(this.filteredScreenshots.length / this.itemsPerPage)] *)
Definition totalPages (o : State) : Z :=
  - ((- Z.of_nat (length (filteredScreenshots o))) `div` itemsPerPage).

(** The records [renderScreenshots] puts into the grid. *)
Definition pageScreenshots (o : State) : list ScreenshotData :=
  let startIndex := (currentPage o - 1) * itemsPerPage in
  let endIndex := startIndex + itemsPerPage in
  slice (filteredScreenshots o) startIndex endIndex.

Definition changePage (direction : Z) (o : State) : State :=
  let newPage := currentPage o + direction in
  if decide (1 <= newPage /\ newPage <= totalPages o) then
    {| screenshots := screenshots o; filteredScreenshots := filteredScreenshots o;
       currentPage := newPage; toasts := toasts o; console := console o |}
  else o.

(** [updatePagination]: the values it assigns to [prevBtn.disabled] and
    [nextBtn.disabled]. *)
Definition prevBtn_disabled (o : State) : bool :=
  bool_decide (currentPage o <= 1).

Definition nextBtn_disabled (o : State) : bool :=
  bool_decide (currentPage o >= totalPages o).

Section Controller.
Variable P : Page.
Variable C : Chrome.

Definition filterScreenshots (o : State) : State :=
  {| screenshots := screenshots o; filteredScreenshots := view P (screenshots o);
     currentPage := 1; toasts := toasts o; console := console o |}.

(** [this.sendMessage(message)]: rejects with [lastError] when set,
    resolves with the response of the background listener otherwise. *)
Definition sendMessage (message : Message) (bg : Background.State)
  : Result Response * Background.State :=
  match lastError P with
  | Some m => (Throw m, bg)
  | None => let '(r, bg') := onMessage C message None bg in (Ok r, bg')
  end.

Definition loadScreenshots (w : State * Background.State)
  : State * Background.State :=
  let '(o, bg) := w in
  match sendMessage {| action := "getHistory"; message_mode := visible;
                       message_id := "" |} bg with
  | (Ok response, bg') =>
      if response_success response then
        (filterScreenshots
           (set_screenshots (default [] (response_screenshots response)) o), bg')
      else (showToast "加载历史记录失败" error_toast o, bg')
  | (Throw m, bg') =>
      (showToast "加载历史记录失败" error_toast
         (console_error "Load screenshots error:" m o), bg')
  end.

Definition deleteScreenshot (i : string) (w : State * Background.State)
  : State * Background.State :=
  let '(o, bg) := w in
  if negb (confirm P) then w
  else
    match sendMessage {| action := "deleteScreenshot"; message_mode := visible;
                         message_id := i |} bg with
    | (Ok response, bg') =>
        if response_success response then
          (showToast "截图已删除" success_toast
             (filterScreenshots
                (set_screenshots (filter (fun s => id s <> i) (screenshots o)) o)),
           bg')
        else (showToast "删除失败" error_toast o, bg')
    | (Throw m, bg') =>
        (showToast "删除失败" error_toast
           (console_error "Delete screenshot error:" m o), bg')
    end.

Definition clearAllScreenshots (w : State * Background.State)
  : State * Background.State :=
  let '(o, bg) := w in
  if negb (confirm P) then w
  else
    match storage_set_screenshots C [] bg with
    | (Ok _, bg') =>
        (showToast "历史记录已清空" success_toast
           (filterScreenshots (set_screenshots [] o)), bg')
    | (Throw m, bg') =>
        (showToast "清空失败" error_toast (console_error "Clear all error:" m o), bg')
    end.

End Controller.

(** The controller's copy of the history is the stored history. *)
Definition in_sync (w : State * Background.State) : Prop :=
  screenshots w.1 = history w.2.

(** The current page is one of the pages there are, or the first when
    there is none. *)
Definition on_a_page (o : State) : Prop :=
  1 <= currentPage o /\ currentPage o <= Z.max 1 (totalPages o).

(** The records of page [p] of [o]. *)
Definition page (o : State) (p : Z) : list ScreenshotData :=
  pageScreenshots
    {| screenshots := screenshots o; filteredScreenshots := filteredScreenshots o;
       currentPage := p; toasts := toasts o; console := console o |}.

(** *** Examples *)

(** The user confirms, the worker is listening, and the search box is
    empty over a history that is already in the chosen order. *)
Definition as_stored : Page :=
  {| confirm := true; lastError := None; view := fun l => l |}.

(** The same page when no listener receives the message. *)
Definition unreachable : Page :=
  {| confirm := true;
     lastError :=
       Some "Could not establish connection. Receiving end does not exist.";
     view := fun l => l |}.

(** A controller holding [l], unfiltered, on page [p]. *)
Definition showing (l : list ScreenshotData) (p : Z) : State :=
  {| screenshots := l; filteredScreenshots := l; currentPage := p;
     toasts := []; console := [] |}.

(** The fields as the class initialises them. *)
Definition opened : State := showing [] 1.

End Options.

(** ** The settings tab of the options page *)

Module SettingsTab.

(** [interface Settings] as the controller holds it; the two numbers are
    whatever [parseInt] has returned. *)
Record Settings := {
  captureMode : string;
  autoDownload : bool;
  saveHistory : bool;
  maxHistory : ContentScript.number;
  imageQuality : ContentScript.number;
  filenamePattern : string;
}.

(** The elements of the form, each with its [value] (its [checked] for
    the two check boxes), [None] where [getElementById] finds none. *)
Record Form := {
  default_mode : option string;
  auto_download : option bool;
  save_history : option bool;
  max_history : option string;
  image_quality : option string;
  filename_pattern : option string;
}.

Inductive ToastType := success_toast | error_toast.

(** [this.settings], the object last handed to
    [chrome.storage.local.set] under the key [settings] by a call that
    resolved, the toasts shown and the lines written by
    [console.error]. *)
Record State := {
  settings : Settings;
  stored : option Settings;
  toasts : list (string * ToastType);
  console : list (string * string);
}.

Definition set_settings (st : Settings) (o : State) : State :=
  {| settings := st; stored := stored o; toasts := toasts o;
     console := console o |}.

Definition set_stored (st : Settings) (o : State) : State :=
  {| settings := settings o; stored := Some st; toasts := toasts o;
     console := console o |}.

Definition showToast (message : string) (type : ToastType) (o : State) : State :=
  {| settings := settings o; stored := stored o;
     toasts := toasts o ++ [(message, type)]; console := console o |}.

Definition console_error (label message : string) (o : State) : State :=
  {| settings := settings o; stored := stored o; toasts := toasts o;
     console := console o ++ [(label, message)] |}.

(** [x?.checked || fallback] *)
Definition checked_or (x : option bool) (fallback : bool) : bool :=
  default false x || fallback.

Section Controller.
Variable parseInt : string -> ContentScript.number.
Variable C : Background.Chrome.

Definition saveSettings (f : Form) (o : State) : State :=
  let st :=
    {| captureMode := Background.or_else (default_mode f) "visible";
       autoDownload := checked_or (auto_download f) true;
       saveHistory := checked_or (save_history f) true;
       maxHistory := parseInt (Background.or_else (max_history f) "50");
       imageQuality := parseInt (Background.or_else (image_quality f) "90");
       filenamePattern :=
         Background.or_else (filename_pattern f) "screenshot_{date}_{time}" |} in
  let o := set_settings st o in
  match Background.storage_local_set C with
  | None => showToast "设置已保存" success_toast (set_stored st o)
  | Some m =>
      showToast "保存设置失败" error_toast
        (console_error "Save settings error:" m o)
  end.

End Controller.

(** The form [f] with the two check boxes put to [a] and [b]. *)
Definition with_check_boxes (a b : option bool) (f : Form) : Form :=
  {| default_mode := default_mode f; auto_download := a; save_history := b;
     max_history := max_history f; image_quality := image_quality f;
     filename_pattern := filename_pattern f |}.

(** *** Examples *)

(** The fields as the class initialises them, over an empty storage. *)
Definition opened : State :=
  {| settings :=
       {| captureMode := "visible"; autoDownload := true; saveHistory := true;
          maxHistory := ContentScript.Fin 50;
          imageQuality := ContentScript.Fin 90;
          filenamePattern := "screenshot_{date}_{time}" |};
     stored := None; toasts := []; console := [] |}.

(** A form on which the user has cleared both check boxes. *)
Definition both_unchecked : Form :=
  {| default_mode := Some "full"; auto_download := Some false;
     save_history := Some false; max_history := Some "10";
     image_quality := Some "80";
     filename_pattern := Some "shot_{date}" |}.

(** A [parseInt] that knows the numbers of the examples. *)
Definition parseInt_example (s : string) : ContentScript.number :=
  if decide (s = "10") then ContentScript.Fin 10
  else if decide (s = "80") then ContentScript.Fin 80
  else if decide (s = "50") then ContentScript.Fin 50
  else if decide (s = "90") then ContentScript.Fin 90
  else ContentScript.NaN.

End SettingsTab.

(** ** The popup *)

Module Popup.
Import Background.

Inductive StatusType := loading_status | success_status | error_status.

(** What the popup shows: whether the capture button is disabled, the
    status message if one is displayed, the source of the preview image
    if the preview is displayed, and the lines written by
    [console.error]. The timer that hides a success status after three
    seconds is not modelled. *)
Record State := {
  captureBtn_disabled : bool;
  status : option (string * StatusType);
  preview : option string;
  console : list (string * string);
}.

(** The window the popup document runs in: [chrome.runtime.lastError]
    in the callback of [sendMessage], and [sender.tab] as the browser
    hands it to the listener for a message of this document (absent for
    the popup window, which is no tab). *)
Record Window := {
  lastError : option string;
  sender_tab : option Tab;
}.

Definition setLoading (loading : bool) (o : State) : State :=
  {| captureBtn_disabled := loading; status := status o; preview := preview o;
     console := console o |}.

Definition showStatus (message : string) (type : StatusType) (o : State) : State :=
  {| captureBtn_disabled := captureBtn_disabled o; status := Some (message, type);
     preview := preview o; console := console o |}.

Definition showPreview (dataUrl : string) (o : State) : State :=
  {| captureBtn_disabled := captureBtn_disabled o; status := status o;
     preview := Some dataUrl; console := console o |}.

Definition hidePreview (o : State) : State :=
  {| captureBtn_disabled := captureBtn_disabled o; status := status o;
     preview := None; console := console o |}.

Definition console_error (label message : string) (o : State) : State :=
  {| captureBtn_disabled := captureBtn_disabled o; status := status o;
     preview := preview o; console := console o ++ [(label, message)] |}.

(** The fields of a response the popup reads. *)
Definition success_of (r : Response) : bool :=
  match r with
  | CaptureResult c => success c
  | HistoryResult h => history_success h
  | DeleteResult d => delete_success d
  | ErrorResponse _ => false
  end.

Definition dataUrl_of (r : Response) : option string :=
  match r with
  | CaptureResult c => response_dataUrl c
  | _ => None
  end.

Definition filename_of (r : Response) : option string :=
  match r with
  | CaptureResult c => response_filename c
  | _ => None
  end.

Definition error_of (r : Response) : option string :=
  match r with
  | CaptureResult c => response_error c
  | HistoryResult h => history_error h
  | DeleteResult d => delete_error d
  | ErrorResponse e => Some e
  end.

(** An optional string as a condition: undefined and the empty string
    are falsy. *)
Definition truthy (x : option string) : bool :=
  match x with
  | Some s => bool_decide (s <> "")
  | None => false
  end.

Section Controller.
Variable W : Window.
Variable C : Chrome.

Definition sendMessage (message : Message) (bg : Background.State)
  : Result Response * Background.State :=
  match lastError W with
  | Some m => (Throw m, bg)
  | None =>
      let '(r, bg') := onMessage C message (sender_tab W) bg in (Ok r, bg')
  end.

Definition handleCapture (mode : Mode) (w : State * Background.State)
  : State * Background.State :=
  let '(o, bg) := w in
  let o := hidePreview (showStatus "正在截取..." loading_status (setLoading true o)) in
  let '(o, bg) :=
    match sendMessage {| action := "capture"; message_mode := mode;
                         message_id := "" |} bg with
    | (Ok response, bg') =>
        if success_of response && truthy (dataUrl_of response) then
          (showPreview (default "" (dataUrl_of response))
             (showStatus
                ("截图成功！文件名: " +:+ default "undefined" (filename_of response))
                success_status o), bg')
        else
          (showStatus
             ("截图失败: " +:+ or_else (error_of response) "未知错误")
             error_status o, bg')
    | (Throw m, bg') =>
        (showStatus "截图失败，请重试" error_status
           (console_error "Capture error:" m o), bg')
    end in
  (setLoading false o, bg).

End Controller.

(** *** Examples *)

(** The popup as it opens. *)
Definition opened : State :=
  {| captureBtn_disabled := false; status := None; preview := None;
     console := [] |}.

(** The popup window of the toolbar button. *)
Definition popup_window : Window :=
  {| lastError := None; sender_tab := None |}.

(** The popup document opened in a tab of its own. *)
Definition in_a_tab : Window :=
  {| lastError := None; sender_tab := Some example_tab |}.

End Popup.

(** ** The two scripts wired together *)

Module Extension.

(** The message [captureVisibleArea] sends to the background:
    [{ action: 'captureVisibleTab' }]. It has no [mode] and no [id]; the
    listener does not read them for this action. *)
Definition captureVisibleTab_request : Background.Message :=
  {| Background.action := "captureVisibleTab";
     Background.message_mode := Background.visible;
     Background.message_id := "" |}.

(** What the callback of [captureVisibleArea] reads off a response of the
    background listener: [response.success], [response.dataUrl] (the empty
    string when the response has none) and [response.error]. *)
Definition reply_of (r : Background.Response) : ContentScript.TabReply :=
  match r with
  | Background.CaptureResult c =>
      ContentScript.Response (Background.success c)
        (default "" (Background.response_dataUrl c)) (Background.response_error c)
  | Background.HistoryResult h =>
      ContentScript.Response (Background.history_success h) ""
        (Background.history_error h)
  | Background.DeleteResult d =>
      ContentScript.Response (Background.delete_success d) ""
        (Background.delete_error d)
  | Background.ErrorResponse e => ContentScript.Response false "" (Some e)
  end.

(** The tile requests of the content script are answered by the listener
    of background.ts, in whatever state the background is. *)
Definition answered_by_background (B : ContentScript.Browser) : Prop :=
  forall t, exists C tab bg,
    ContentScript.captureVisibleTab B t =
      reply_of (Background.onMessage C captureVisibleTab_request tab bg).1.

(** What [handleCapture] receives from [chrome.tabs.sendMessage] when the
    listener of the content script has sent [r]; [encode] stands for the
    string a canvas data URL is. *)
Definition relay (encode : ContentScript.CanvasDataURL -> string)
    (r : ContentScript.Reply) : Background.ContentResponse :=
  match r with
  | ContentScript.Success dataUrl => Background.FullPageSuccess (encode dataUrl)
  | ContentScript.Failure error => Background.FullPageFailure (Some error)
  end.

(** The response of the content script to a [captureFullPage] message
    without options, as [handleCapture] receives it. *)
Definition full_page_response (encode : ContentScript.CanvasDataURL -> string)
    (B : ContentScript.Browser) (fuel : nat) (s : ContentScript.State)
    : option Background.ContentResponse :=
  s' ← ContentScript.onMessage_captureFullPage B fuel None s ;
  r ← last (ContentScript.responses s') ;
  Some (relay encode r).

End Extension.

(** * Properties of the content script *)

Module ContentScriptProofs.
Import ContentScript.

(** ** Reasoning rules *)

Lemma bind_unfold {A B} (m : M A) (k : A -> M B) s :
  (m ≫= k) s =
  match m s with
  | Returned (Ok a) s' => k a s'
  | Returned (Throw e) s' => Returned (Throw e) s'
  | OutOfFuel => OutOfFuel
  | Overlap => Overlap
  end.
Proof. reflexivity. Qed.

Lemma hoare_bind {A B} P (m : M A) (k : A -> M B) (R : A -> State -> Prop) Q :
  hoare P m (fun r s' => match r with Ok a => R a s' | Throw e => Q (Throw e) s' end) ->
  (forall a, hoare (R a) (k a) Q) ->
  hoare P (m ≫= k) Q.
Proof.
  intros Hm Hk s HP. rewrite bind_unfold. specialize (Hm s HP).
  destruct (m s) as [[a|e] s'| |]; try done. by apply Hk.
Qed.

Lemma hoare_ret {A} (P : State -> Prop) (a : A) (Q : Result A -> State -> Prop) :
  (forall s, P s -> Q (Ok a) s) -> hoare P (mret a) Q.
Proof. intros H s HP. by apply H. Qed.

Lemma hoare_throw {A} (P : State -> Prop) e (Q : Result A -> State -> Prop) :
  (forall s, P s -> Q (Throw e) s) -> hoare P (throw e) Q.
Proof. intros H s HP. by apply H. Qed.

Lemma hoare_modify (P : State -> Prop) f (Q : Result unit -> State -> Prop) :
  (forall s, P s -> Q (Ok tt) (f s)) -> hoare P (modify f) Q.
Proof. intros H s HP. by apply H. Qed.

Lemma hoare_read {A} (P : State -> Prop) (f : State -> A) (Q : Result A -> State -> Prop) :
  (forall s, P s -> Q (Ok (f s)) s) -> hoare P (read f) Q.
Proof. intros H s HP. by apply H. Qed.

Lemma hoare_weaken {A} (P P' : State -> Prop) (m : M A) (Q Q' : Result A -> State -> Prop) :
  hoare P' m Q' -> (forall s, P s -> P' s) -> (forall r s, Q' r s -> Q r s) ->
  hoare P m Q.
Proof.
  intros H HP HQ s Hs. specialize (H s (HP s Hs)).
  destruct (m s); auto.
Qed.

(** The loop rule, with an invariant indexed by the counter. *)
Lemma hoare_for_loop fuel n body (I : Z -> State -> Prop) (P : State -> Prop)
    (Q : Result unit -> State -> Prop) i0 :
  (forall s, P s -> I i0 s) ->
  (forall i, lt i n = true ->
     hoare (I i) (body i)
       (fun r s' => match r with Ok _ => I (i + 1) s' | Throw e => Q (Throw e) s' end)) ->
  (forall i s, lt i n = false -> I i s -> Q (Ok tt) s) ->
  hoare P (for_loop fuel i0 n body) Q.
Proof.
  intros Hinit Hbody Hexit s HP. apply Hinit in HP. clear Hinit. revert i0 s HP.
  induction fuel as [|fuel' IH]; intros i s HI; simpl.
  - destruct (lt i n) eqn:Hlt; [done|]. by apply (Hexit i).
  - destruct (lt i n) eqn:Hlt; [|by apply (Hexit i)].
    revert s HI.
    change (hoare (I i) (body i ≫= fun _ => for_loop fuel' (i + 1) n body) Q).
    apply hoare_bind with (R := fun _ => I (i + 1)); auto.
    intros _ s Hs. by apply IH.
Qed.

Lemma finishes_bind {A B} (m : M A) (k : A -> M B) :
  finishes m -> (forall a, finishes (k a)) -> finishes (m ≫= k).
Proof.
  intros Hm Hk s. rewrite bind_unfold. specialize (Hm s).
  destruct (m s) as [[a|e] s'| |]; try done. apply Hk.
Qed.

Lemma finishes_for_loop body :
  (forall i, finishes (body i)) ->
  forall fuel i n, (Z.to_nat (n - i) <= fuel)%nat ->
    finishes (for_loop fuel i (Fin n) body).
Proof.
  intros Hbody. induction fuel as [|fuel IH]; intros i n Hfuel s; simpl.
  - case_bool_decide; [lia|done].
  - case_bool_decide; [|done].
    apply finishes_bind; [apply Hbody|]. intros _. apply IH. lia.
Qed.

(** ** The ceiling of a quotient *)

Lemma Math_ceil_div_pos p v :
  0 < v -> exists n, Math_ceil_div p v = Fin n /\ is_ceiling n p v.
Proof.
  intros Hv. unfold Math_ceil_div. case_decide; [lia|].
  eexists; split; [done|]. unfold is_ceiling.
  pose proof (Z.div_mod (- p) v ltac:(lia)).
  pose proof (Z.mod_pos_bound (- p) v Hv). nia.
Qed.

Lemma is_ceiling_bounds n p v : 0 < v -> is_ceiling n p v -> n <= Z.max p 0.
Proof. unfold is_ceiling. nia. Qed.

Lemma is_ceiling_nonneg n p v : 0 < v -> 0 <= p -> is_ceiling n p v -> 0 <= n.
Proof. unfold is_ceiling. nia. Qed.

(** ** A session under an arbitrary browser *)

Section AnyBrowser.
Variable B : Browser.
Variable fuel : nat.
Variable options : CaptureOptions.
(** the state at invocation *)
Variable s0 : State.

Local Abbreviation active := (active s0).

Lemma active_suspend :
  hoare active (suspend B) (fun _ s' => active s').
Proof.
  intros s (Hflag & Hcv & Hheap & n & Hresp). unfold suspend.
  case_decide; [by repeat split; eauto|].
  rewrite Hflag. repeat split; auto. simpl.
  exists (n + arrivals B (now s))%nat.
  by rewrite Hresp, replicate_add, (assoc_L (++)).
Qed.

Lemma active_await {A} (m : M A) :
  hoare active m (fun _ s' => active s') ->
  hoare active (await B m) (fun _ s' => active s').
Proof.
  intros Hm. unfold await.
  apply hoare_bind with (R := fun _ => active); [|done].
  eapply hoare_weaken; [apply active_suspend|done|].
  by intros [].
Qed.

Lemma active_scrollTo x y :
  hoare active (scrollTo x y) (fun _ s' => active s').
Proof. by apply hoare_modify. Qed.

Lemma active_wait ms : hoare active (wait ms) (fun _ s' => active s').
Proof. by apply hoare_modify. Qed.

Lemma active_captureVisibleArea :
  hoare active (captureVisibleArea B) (fun _ s' => active s').
Proof.
  intros s Hs. unfold captureVisibleArea.
  by destruct (captureVisibleTab B (now s)) as [|[]].
Qed.

Lemma active_drawImageToCanvas dataUrl x y :
  hoare active (drawImageToCanvas B dataUrl x y) (fun _ s' => active s').
Proof.
  intros s Hs. unfold drawImageToCanvas.
  destruct (Image_onload B dataUrl); [|done].
  destruct (ctx s) as [c|]; [|done].
  destruct Hs as (? & ? & ? & ?). repeat split; auto.
  simpl. by rewrite length_alter.
Qed.

Lemma active_tile row col :
  hoare active (tile B row col) (fun _ s' => active s').
Proof.
  unfold tile.
  apply hoare_bind with (R := fun _ => active).
  { eapply hoare_weaken; [apply active_scrollTo|done|by intros []]. }
  intros _. apply hoare_bind with (R := fun _ => active).
  { eapply hoare_weaken; [apply active_await, active_wait|done|by intros []]. }
  intros _. apply hoare_bind with (R := fun _ => active).
  { eapply hoare_weaken;
      [apply active_await, active_captureVisibleArea|done|by intros []]. }
  intros dataUrl. apply active_await, active_drawImageToCanvas.
Qed.

Lemma active_for_loop n i (body : Z -> M unit) :
  (forall j, hoare active (body j) (fun _ s' => active s')) ->
  hoare active (for_loop fuel i n body) (fun _ s' => active s').
Proof.
  intros Hbody.
  apply (hoare_for_loop fuel n body (fun _ => active)); [done| |done].
  intros j _. eapply hoare_weaken; [apply Hbody|done|by intros []].
Qed.

Lemma active_toDataURL type q :
  hoare active (toDataURL type q) (fun _ s' => active s').
Proof.
  intros s Hs. unfold toDataURL.
  by destruct (canvas s ≫= _).
Qed.

Lemma captureFullPage_unfold s :
  captureFullPage B fuel options s =
  if isCapturing s then Returned (Throw in_progress) s
  else try_finally (try_block B fuel options) cleanup (set_isCapturing true s).
Proof. reflexivity. Qed.

Lemma try_block_active :
  hoare (fun s => s = set_isCapturing true s0) (try_block B fuel options)
        (fun _ s' => active s').
Proof.
  unfold try_block.
  apply hoare_bind with (R := fun _ => active).
  { apply hoare_modify. intros s ->. repeat split; simpl; eauto.
    - by rewrite length_app, Nat.add_1_r.
    - exists 0%nat. by rewrite app_nil_r. }
  intros _. apply hoare_bind with (R := fun _ => active).
  { apply hoare_modify. by intros s (? & ? & ? & ?). }
  intros _. apply hoare_bind with (R := fun _ => active).
  { by apply hoare_read. }
  intros c. apply hoare_bind with (R := fun _ => active).
  { destruct c; [by apply hoare_ret|by apply hoare_throw]. }
  intros _. apply hoare_bind with (R := fun _ => active).
  { by apply hoare_read. }
  intros ox. apply hoare_bind with (R := fun _ => active).
  { by apply hoare_read. }
  intros oy. simpl. apply hoare_bind with (R := fun _ => active).
  { eapply hoare_weaken;
      [apply active_for_loop; intros row;
       apply active_for_loop; intros col; apply active_tile
      |done|by intros []]. }
  intros _. apply hoare_bind with (R := fun _ => active).
  { eapply hoare_weaken; [apply active_scrollTo|done|by intros []]. }
  intros _. apply active_toDataURL.
Qed.

Lemma cleanup_log s : log (cleanup s) = log s.
Proof. unfold cleanup. by destruct (canvas _). Qed.

Lemma cleanup_scrollX s : scrollX (cleanup s) = scrollX s.
Proof. unfold cleanup. by destruct (canvas _). Qed.

Lemma cleanup_scrollY s : scrollY (cleanup s) = scrollY s.
Proof. unfold cleanup. by destruct (canvas _). Qed.

Lemma cleanup_heap s : heap (cleanup s) = heap s.
Proof. unfold cleanup. by destruct (canvas _). Qed.

Lemma cleanup_active s :
  active s ->
  isCapturing (cleanup s) = false /\ canvas (cleanup s) = None /\
  ctx (cleanup s) = None /\
  length (heap (cleanup s)) = S (length (heap s0)) /\
  exists n, responses (cleanup s) = responses s0 ++ replicate n (Failure in_progress).
Proof.
  intros (_ & [c Hc] & Hheap & Hresp). unfold cleanup. simpl.
  by rewrite Hc.
Qed.

(** An invocation that passes the guard ends, if it ends, with the
    flag clear and the references dropped; it never overlaps with a
    second session. *)
Lemma captureFullPage_idle :
  isCapturing s0 = false ->
  match captureFullPage B fuel options s0 with
  | Returned _ s' =>
      isCapturing s' = false /\ canvas s' = None /\ ctx s' = None /\
      length (heap s') = S (length (heap s0)) /\
      exists n, responses s' = responses s0 ++ replicate n (Failure in_progress)
  | OutOfFuel => True
  | Overlap => False
  end.
Proof.
  intros Hidle. rewrite captureFullPage_unfold, Hidle. unfold try_finally.
  pose proof (try_block_active _ eq_refl) as H.
  destruct (try_block _ _ _ _) as [r s'| |]; [|done..].
  by apply cleanup_active.
Qed.

End AnyBrowser.

(** ** Termination *)

Section Termination.
Variable B : Browser.
Variable fuel : nat.
Variable options : CaptureOptions.

Lemma finishes_modify f : finishes (modify f).
Proof. done. Qed.

Lemma finishes_read {A} (f : State -> A) : finishes (read f).
Proof. done. Qed.

Lemma finishes_suspend : finishes (suspend B).
Proof. intros s. unfold suspend. by repeat case_match. Qed.

Lemma finishes_await {A} (m : M A) : finishes m -> finishes (await B m).
Proof. intros Hm. apply finishes_bind; [apply finishes_suspend|done]. Qed.

Lemma finishes_captureVisibleArea : finishes (captureVisibleArea B).
Proof. intros s. unfold captureVisibleArea. by repeat case_match. Qed.

Lemma finishes_drawImageToCanvas d x y : finishes (drawImageToCanvas B d x y).
Proof. intros s. unfold drawImageToCanvas. by repeat case_match. Qed.

Lemma finishes_toDataURL type q : finishes (toDataURL type q).
Proof. intros s. unfold toDataURL. by case_match. Qed.

Lemma finishes_tile row col : finishes (tile B row col).
Proof.
  unfold tile. apply finishes_bind; [apply finishes_modify|intros _].
  apply finishes_bind; [apply finishes_await, finishes_modify|intros _].
  apply finishes_bind; [apply finishes_await, finishes_captureVisibleArea|].
  intros d. apply finishes_await, finishes_drawImageToCanvas.
Qed.

(** With a viewport of positive size and fuel for as many iterations
    as the page measures, the [try] block runs to its end. *)
Lemma finishes_try_block :
  0 < viewportHeight B -> 0 < viewportWidth B ->
  pageHeight B <= Z.of_nat fuel -> pageWidth B <= Z.of_nat fuel ->
  finishes (try_block B fuel options).
Proof.
  intros Hvh Hvw Hph Hpw. unfold try_block.
  destruct (Math_ceil_div_pos (pageHeight B) _ Hvh) as (rows & -> & Hrows).
  destruct (Math_ceil_div_pos (pageWidth B) _ Hvw) as (cols & -> & Hcols).
  apply is_ceiling_bounds in Hrows, Hcols; [|done..].
  apply finishes_bind; [apply finishes_modify|intros _].
  apply finishes_bind; [apply finishes_modify|intros _].
  apply finishes_bind; [apply finishes_read|intros c].
  apply finishes_bind; [by destruct c|intros _].
  apply finishes_bind; [apply finishes_read|intros ox].
  apply finishes_bind; [apply finishes_read|intros oy]. simpl.
  apply finishes_bind.
  { apply finishes_for_loop; [|lia]. intros row.
    apply finishes_for_loop; [|lia]. intros col. apply finishes_tile. }
  intros _. apply finishes_bind; [apply finishes_modify|intros _].
  apply finishes_toDataURL.
Qed.

Lemma captureFullPage_finishes s :
  0 < viewportHeight B -> 0 < viewportWidth B ->
  pageHeight B <= Z.of_nat fuel -> pageWidth B <= Z.of_nat fuel ->
  exists r s', captureFullPage B fuel options s = Returned r s'.
Proof.
  intros Hvh Hvw Hph Hpw.
  destruct (isCapturing s) eqn:Hflag.
  { rewrite captureFullPage_unfold, Hflag. eauto. }
  pose proof (captureFullPage_idle B fuel options s Hflag) as Hidle.
  pose proof (finishes_try_block Hvh Hvw Hph Hpw (set_isCapturing true s)) as Hfin.
  rewrite captureFullPage_unfold, Hflag in Hidle |- *.
  unfold try_finally in *.
  destruct (try_block _ _ _ _) as [r s'| |]; by eauto.
Qed.

End Termination.

(** ** What the tiles done so far have drawn *)

Lemma tiles_drawn_snoc B t0 tiles t :
  tiles_drawn B t0 (tiles ++ [t]) =
    tiles_drawn B t0 tiles
      ++ [(tile_at B (capture_time t0 (length tiles)), (offset B t).1, (offset B t).2)].
Proof. unfold tiles_drawn. rewrite imap_app. simpl. by rewrite Nat.add_0_r. Qed.

Lemma provided_snoc B t0 (tiles : list (Z * Z)) t :
  (forall k, (k < length tiles)%nat -> provided B t0 k) ->
  provided B t0 (length tiles) ->
  forall k, (k < length (tiles ++ [t]))%nat -> provided B t0 k.
Proof.
  intros Hall Hlast k. rewrite length_app. simpl. intros Hk.
  destruct (decide (k = length tiles)) as [->|Hne]; [done|].
  apply Hall. lia.
Qed.

Lemma tile_at_provided B t d e :
  captureVisibleTab B t = Response true d e -> tile_at B t = d.
Proof. unfold tile_at. by intros ->. Qed.

Lemma drawn_at_tiles_drawn B t0 tiles cv :
  drawn cv = tiles_drawn B t0 tiles -> drawn_at cv = offset B <$> tiles.
Proof.
  unfold drawn_at, tiles_drawn. intros ->.
  rewrite fmap_imap. unfold compose. simpl.
  rewrite <- (imap_const (offset B)). apply imap_ext. by intros k [r c] _.
Qed.

Lemma tiling_start B s0 s1 :
  isCapturing s1 = true ->
  canvas s1 = Some (length (heap s0)) ->
  ctx s1 = Some (length (heap s0)) ->
  now s1 = now s0 ->
  log s1 = log s0 ->
  heap s1 !! length (heap s0)
    = Some {| width := pageWidth B; height := pageHeight B; drawn := [] |} ->
  tiling B s0 [] s1.
Proof.
  intros Hflag Hcv Hctx Hnow Hlog Hheap. split_and!; auto.
  - rewrite Hnow. simpl. lia.
  - simpl. intros k Hk. lia.
  - simpl. by rewrite app_nil_r.
  - eexists. by split_and!.
Qed.

(** ** A session under a cooperative browser *)

Section Cooperative.
Variable B : Browser.
Variable fuel : nat.
Variable options : CaptureOptions.
Variable s0 : State.
Hypothesis Hcoop : cooperative B.

Local Abbreviation tiling := (tiling B s0).

Lemma suspend_busy s :
  isCapturing s = true ->
  exists rs, suspend B s = Returned (Ok tt) (respond rs (set_now (S (now s)) s)).
Proof.
  intros Hflag. unfold suspend. rewrite Hflag.
  case_decide; [|by eauto].
  exists []. f_equal. destruct s; unfold respond; simpl. by rewrite app_nil_r.
Qed.

Lemma tile_tiling tiles row col :
  hoare (tiling tiles) (tile B row col)
        (fun r s' => r = Ok tt /\ tiling (tiles ++ [(row, col)]) s').
Proof.
  intros s (Hflag & Hcv & Hctx & Hnow & Hprov & Hlog & cv & Hheap & Hw & Hh
            & Hdrawn & Himg).
  unfold tile, await, scrollTo, wait, modify. rewrite !bind_unfold.
  edestruct suspend_busy as [rs1 ->]; [done|]. rewrite !bind_unfold.
  edestruct suspend_busy as [rs2 ->]; [done|]. unfold captureVisibleArea.
  destruct Hcoop as [_ Htab].
  simpl (now _). replace (S (S (now s))) with (capture_time (now s0) (length tiles))
    by (unfold capture_time; lia).
  destruct (Htab (capture_time (now s0) (length tiles))) as (d & e & Htile & Hload).
  rewrite Htile. rewrite !bind_unfold.
  edestruct suspend_busy as [rs3 ->]; [done|].
  unfold drawImageToCanvas. rewrite Hload. simpl. rewrite Hctx.
  split; [done|]. split_and!; simpl; auto.
  - rewrite length_app. unfold capture_time. simpl. lia.
  - apply provided_snoc; [done|]. by exists d, e.
  - rewrite Hlog, bind_app, <- !(assoc_L (++)). simpl. done.
  - exists {| width := width cv; height := height cv;
              drawn := drawn cv ++ [(d, col * viewportWidth B, row * viewportHeight B)] |}.
    split_and!; auto.
    + by rewrite list_lookup_alter_eq, Hheap.
    + unfold drawn_at in *. simpl. by rewrite !fmap_app, Hdrawn.
    + simpl. by rewrite tiles_drawn_snoc, Himg, (tile_at_provided B _ d e Htile).
Qed.

Lemma seqZ_snoc i : 0 <= i -> seqZ 0 (i + 1) = seqZ 0 i ++ [i].
Proof. intros Hi. by rewrite seqZ_app by lia. Qed.

Lemma row_major_snoc rows cols :
  0 <= rows ->
  row_major (rows + 1) cols = row_major rows cols ++ (pair rows <$> seqZ 0 cols).
Proof.
  intros Hrows. unfold row_major.
  rewrite seqZ_snoc, bind_app by done. simpl. by rewrite app_nil_r.
Qed.

Lemma row_tiling tiles row cols :
  0 <= cols ->
  hoare (tiling tiles)
        (for_loop fuel 0 (Fin cols) (fun col => tile B row col))
        (fun r s' => r = Ok tt /\ tiling (tiles ++ (pair row <$> seqZ 0 cols)) s').
Proof.
  intros Hcols.
  apply (hoare_for_loop fuel (Fin cols) _
           (fun i s => 0 <= i <= cols /\
                       tiling (tiles ++ (pair row <$> seqZ 0 i)) s)).
  - intros s Hs. split; [lia|]. by rewrite app_nil_r.
  - intros i Hlt. apply bool_decide_eq_true in Hlt.
    intros s [Hi Hs]. pose proof (tile_tiling _ row i s Hs) as Ht.
    destruct (tile B row i s) as [[[]|e] s'| |]; try done; [|by destruct Ht].
    destruct Ht as [_ Ht]. split; [lia|].
    by rewrite seqZ_snoc, fmap_app, (assoc_L (++)) by lia.
  - intros i s Hlt [Hi Hs]. apply bool_decide_eq_false in Hlt.
    by replace cols with i by lia.
Qed.

Lemma grid_tiling rows cols :
  0 <= rows -> 0 <= cols ->
  hoare (tiling [])
        (for_loop fuel 0 (Fin rows) (fun row =>
           for_loop fuel 0 (Fin cols) (fun col => tile B row col)))
        (fun r s' => r = Ok tt /\ tiling (row_major rows cols) s').
Proof.
  intros Hrows Hcols.
  apply (hoare_for_loop fuel (Fin rows) _
           (fun i s => 0 <= i <= rows /\ tiling (row_major i cols) s)).
  - intros s Hs. split; [lia|done].
  - intros i Hlt. apply bool_decide_eq_true in Hlt.
    intros s [Hi Hs]. pose proof (row_tiling _ i cols Hcols s Hs) as Ht.
    destruct (for_loop fuel 0 (Fin cols) _ s) as [[[]|e] s'| |];
      try done; [|by destruct Ht].
    destruct Ht as [_ Ht]. split; [lia|].
    by rewrite row_major_snoc by lia.
  - intros i s Hlt [Hi Hs]. apply bool_decide_eq_false in Hlt.
    by replace rows with i by lia.
Qed.

(** A session that meets no failure: what it returns and the state
    it leaves. *)
Lemma captureFullPage_success :
  isCapturing s0 = false ->
  0 < viewportHeight B -> 0 < viewportWidth B ->
  0 <= pageHeight B <= Z.of_nat fuel -> 0 <= pageWidth B <= Z.of_nat fuel ->
  exists rows cols dataUrl s',
    is_ceiling rows (pageHeight B) (viewportHeight B) /\
    is_ceiling cols (pageWidth B) (viewportWidth B) /\
    0 <= rows /\ 0 <= cols /\
    captureFullPage B fuel options s0 = Returned (Ok dataUrl) s' /\
    log s' = log s0 ++ (row_major rows cols ≫= tile_events B)
               ++ [ScrollTo (scrollX s0) (scrollY s0)] /\
    scrollX s' = scrollX s0 /\ scrollY s' = scrollY s0 /\
    heap s' !! length (heap s0) = Some (pixels dataUrl) /\
    mime dataUrl = "image/" +:+ format_name (default png (format options)) /\
    encoderQuality dataUrl = default (9 # 10)%Q (quality options) /\
    width (pixels dataUrl) = pageWidth B /\
    height (pixels dataUrl) = pageHeight B /\
    drawn_at (pixels dataUrl) = offset B <$> row_major rows cols /\
    drawn (pixels dataUrl) = tiles_drawn B (now s0) (row_major rows cols).
Proof.
  intros Hidle Hvh Hvw Hph Hpw.
  destruct (Math_ceil_div_pos (pageHeight B) _ Hvh) as (rows & Erows & Hrows).
  destruct (Math_ceil_div_pos (pageWidth B) _ Hvw) as (cols & Ecols & Hcols).
  assert (0 <= rows) as Hrows0 by (eapply is_ceiling_nonneg; [..|done]; lia).
  assert (0 <= cols) as Hcols0 by (eapply is_ceiling_nonneg; [..|done]; lia).
  exists rows, cols.
  pose proof (finishes_try_block B fuel options Hvh Hvw
                (proj2 Hph) (proj2 Hpw) (set_isCapturing true s0)) as Hfin.
  rewrite captureFullPage_unfold, Hidle. unfold try_finally.
  revert Hfin. unfold try_block, createCanvas, getContext, modify, read.
  rewrite !bind_unfold. simpl. rewrite (proj1 Hcoop), Erows, Ecols.
  unfold mret, M_ret. simpl. rewrite !bind_unfold. simpl. rewrite ?bind_unfold.
  match goal with
  | |- context [for_loop fuel 0 (Fin rows) _ ?s1] =>
      assert (tiling [] s1) as Hs1
  end.
  { apply tiling_start; simpl; auto. by apply list_lookup_middle. }
  pose proof (grid_tiling rows cols Hrows0 Hcols0 _ Hs1) as Hgrid.
  destruct (for_loop fuel 0 (Fin rows) _ _) as [[[]|e] s2| |];
    try done; [|by destruct Hgrid].
  destruct Hgrid as (_ & Hflag & Hcv & Hctx & Hnow & Hprov & Hlog & cv & Hheap
                     & Hw & Hh & Hdrawn & Himg).
  unfold scrollTo, modify, toDataURL. rewrite !bind_unfold. simpl.
  rewrite Hcv. simpl. rewrite Hheap. intros _.
  eexists _, _. split_and!; try done;
    rewrite ?cleanup_log, ?cleanup_scrollX, ?cleanup_scrollY, ?cleanup_heap;
    simpl; try done.
  by rewrite Hlog, <- (assoc_L (++)).
Qed.

(** With a viewport of height zero under a page of positive height
    the row bound is infinite, and the session does not end. *)
Lemma rows_unbounded cols :
  0 <= cols ->
  forall fuel' i tiles s, tiling tiles s ->
    for_loop fuel' i PosInf (fun row =>
      for_loop fuel 0 (Fin cols) (fun col => tile B row col)) s = OutOfFuel.
Proof.
  intros Hcols. induction fuel' as [|fuel' IH]; intros i tiles s Hs; [done|].
  simpl. rewrite bind_unfold.
  pose proof (row_tiling tiles i cols Hcols s Hs) as Hrow.
  destruct (for_loop fuel 0 (Fin cols) _ s) as [[[]|e] s'| |]; try done.
  - destruct Hrow as [_ Hs']. by eapply IH.
  - by destruct Hrow.
Qed.

Lemma captureFullPage_zero_viewport :
  isCapturing s0 = false ->
  viewportHeight B = 0 -> 0 < pageHeight B ->
  0 < viewportWidth B -> 0 <= pageWidth B ->
  captureFullPage B fuel options s0 = OutOfFuel.
Proof.
  intros Hidle Hvh Hph Hvw Hpw.
  destruct (Math_ceil_div_pos (pageWidth B) _ Hvw) as (cols & Ecols & Hcols).
  assert (0 <= cols) as Hcols0 by (eapply is_ceiling_nonneg; [..|done]; lia).
  rewrite captureFullPage_unfold, Hidle. unfold try_finally.
  unfold try_block, createCanvas, getContext, modify, read.
  rewrite !bind_unfold. simpl. rewrite (proj1 Hcoop), Ecols.
  unfold Math_ceil_div. rewrite Hvh. simpl.
  repeat case_decide; try lia.
  unfold mret, M_ret. simpl. rewrite !bind_unfold. simpl. rewrite ?bind_unfold.
  erewrite (rows_unbounded cols Hcols0 fuel 0 []); [done|].
  apply tiling_start; simpl; auto. by apply list_lookup_middle.
Qed.

End Cooperative.

Lemma answering_cooperative d : cooperative (answering d).
Proof. split; [done|]. intros t. by eexists _, _. Qed.

(** ** Counting the tiles *)




(** ** The page extent *)


(** ** The claims on the content script *)



(** The 1000 by 1000 page under a 400 by 400 viewport, run: nine tiles,
    in the order (0,0), (0,1), (0,2), (1,0), ..., (2,2), each drawn with
    the image captured for it. *)
Example captureFullPage_nine_tiles :
  let B := answering (example_document 1000 1000 400 400) in
  row_major 3 3 = [(0,0); (0,1); (0,2); (1,0); (1,1); (1,2); (2,0); (2,1); (2,2)] /\
  match captureFullPage B 1000 no_options (idle 120 340) with
  | Returned (Ok dataUrl) s' =>
      log s' = (row_major 3 3 ≫= tile_events B) ++ [ScrollTo 120 340] /\
      captures (log s') = 9%nat /\
      drawn_at (pixels dataUrl) =
        [(0,0); (400,0); (800,0); (0,400); (400,400); (800,400);
         (0,800); (400,800); (800,800)] /\
      drawn (pixels dataUrl) =
        [("tile@2",0,0); ("tile@5",400,0); ("tile@8",800,0);
         ("tile@11",0,400); ("tile@14",400,400); ("tile@17",800,400);
         ("tile@20",0,800); ("tile@23",400,800); ("tile@26",800,800)]
  | _ => False
  end.
Proof. by vm_compute. Qed.



(** The 1920 by 3000 page under a 1920 by 1000 viewport, run: three
    tiles, drawn at (0,0), (0,1000), (0,2000) on a canvas of 1920 by
    3000, which is the size of the image returned; the scroll position
    is the one the session started from. *)
Example captureFullPage_three_tiles :
  match captureFullPage (answering (example_document 1920 3000 1920 1000))
          3000 no_options (idle 0 250) with
  | Returned (Ok dataUrl) s' =>
      captures (log s') = 3%nat /\
      drawn_at (pixels dataUrl) = [(0,0); (0,1000); (0,2000)] /\
      width (pixels dataUrl) = 1920 /\ height (pixels dataUrl) = 3000 /\
      mime dataUrl = "image/png" /\
      scrollX s' = 0 /\ scrollY s' = 250
  | _ => False
  end.
Proof. by vm_compute. Qed.

(** C3, on the code: a session whose first tile capture fails leaves
    the page scrolled to the offset of that tile. The page is 1000 by
    1000 under a 400 by 400 viewport, scrolled to (0, 500) at the start;
    the tile provider answers as the background listener does. *)
Theorem captureFullPage_failed_tile_scroll :
  match captureFullPage (unanswering (example_document 1000 1000 400 400))
          1000 no_options (idle 0 500) with
  | Returned r s' =>
      r = Throw "Unknown action" /\
      log s' = [ScrollTo 0 0; Wait 100; CaptureVisibleArea] /\
      scrollX s' = 0 /\ scrollY s' = 0 /\
      scrollY s' <> scrollY (idle 0 500) /\
      isCapturing s' = false /\ canvas s' = None
  | _ => False
  end.
Proof. by vm_compute. Qed.

(** A session without failure does restore the scroll position it
    started from. *)
Lemma captureFullPage_success_scroll B fuel options s :
  cooperative B ->
  isCapturing s = false ->
  0 < viewportHeight B -> 0 < viewportWidth B ->
  0 <= pageHeight B <= Z.of_nat fuel -> 0 <= pageWidth B <= Z.of_nat fuel ->
  exists dataUrl s',
    captureFullPage B fuel options s = Returned (Ok dataUrl) s' /\
    scrollX s' = scrollX s /\ scrollY s' = scrollY s.
Proof.
  intros Hcoop Hidle Hvh Hvw Hph Hpw.
  destruct (captureFullPage_success B fuel options s Hcoop Hidle Hvh Hvw Hph Hpw)
    as (rows & cols & dataUrl & s' & _ & _ & _ & _ & Hrun & _ & Hx & Hy & _).
  by exists dataUrl, s'.
Qed.

(** C4, as stated, fails: an invocation rejected by the guard finishes
    with the flag still set and the canvas of the running session still
    referenced. *)
Lemma captureFullPage_rejected_keeps_flag :
  captureFullPage (answering (example_document 1000 1000 400 400))
    1000 no_options busy = Returned (Throw in_progress) busy /\
  ~ (isCapturing busy = false /\ canvas busy = None).
Proof. split; [reflexivity|]. by intros [? _]. Qed.

(** C4, amended: an invocation that passes the guard (the flag is clear
    when it is invoked) finishes, given a viewport of positive size, and
    on each of its exit paths, successful return or thrown error, the
    flag is clear and the references to the canvas and to its context
    are dropped. *)
Theorem captureFullPage_releases B fuel options s :
  isCapturing s = false ->
  (0 < viewportHeight B -> 0 < viewportWidth B ->
   pageHeight B <= Z.of_nat fuel -> pageWidth B <= Z.of_nat fuel ->
   exists r s', captureFullPage B fuel options s = Returned r s') /\
  (forall r s', captureFullPage B fuel options s = Returned r s' ->
     isCapturing s' = false /\ canvas s' = None /\ ctx s' = None).
Proof.
  intros Hidle. split; [apply captureFullPage_finishes|].
  intros r s' Hrun.
  pose proof (captureFullPage_idle B fuel options s Hidle) as H.
  rewrite Hrun in H. by destruct H as (? & ? & ? & _).
Qed.

(** A session that fails at its first tile ends with the flag clear and
    the references dropped. *)
Lemma captureFullPage_releases_unanswered :
  let B := unanswering (example_document 1000 1000 400 400) in
  isCapturing (idle 0 500) = false /\
  exists r s',
    captureFullPage B 1000 no_options (idle 0 500) = Returned r s' /\
    isCapturing s' = false /\ canvas s' = None /\ ctx s' = None.
Proof.
  intros B. split; [reflexivity|].
  destruct (captureFullPage_releases B 1000 no_options (idle 0 500) eq_refl)
    as [Hfinishes Hreleases].
  destruct Hfinishes as (r & s' & Hrun);
    [reflexivity|reflexivity|vm_compute; discriminate|vm_compute; discriminate|].
  exists r, s'. split; [exact Hrun|]. exact (Hreleases r s' Hrun).
Defined.

(** Two competing invocations delivered during a session are both
    answered with the in-progress error, and the session still captures
    its nine tiles. *)
Example captureFullPage_contended :
  match captureFullPage (contended (example_document 1000 1000 400 400))
          1000 no_options (idle 0 0) with
  | Returned (Ok dataUrl) s' =>
      responses s' = [Failure in_progress; Failure in_progress] /\
      captures (log s') = 9%nat
  | _ => False
  end.
Proof. by vm_compute. Qed.

(** The listener answers an invocation that finds the flag set with the
    in-progress error. *)
Example onMessage_captureFullPage_busy :
  onMessage_captureFullPage (answering (example_document 1000 1000 400 400))
    1000 None busy = Some (respond [Failure in_progress] busy).
Proof. reflexivity. Qed.

(** Under a viewport of height zero the session runs out of any fuel. *)
Example captureFullPage_flat_viewport fuel :
  captureFullPage (answering (example_document 1000 1000 400 0))
    fuel no_options (idle 0 0) = OutOfFuel.
Proof.
  apply captureFullPage_zero_viewport; try done.
  apply answering_cooperative.
Qed.

(** C5: an invocation fails at once with the in-progress error, leaving
    the state as it found it, exactly when the flag is set at
    invocation. No run ever reaches a point where a second session
    starts while one is active: every competing invocation delivered
    during a session is answered with the in-progress error, and none
    is kept for later. *)
Theorem captureFullPage_single_flight B fuel options s :
  (captureFullPage B fuel options s = Returned (Throw in_progress) s
     <-> isCapturing s = true) /\
  captureFullPage B fuel options s <> Overlap /\
  (forall r s', captureFullPage B fuel options s = Returned r s' ->
     exists n, responses s' = responses s ++ replicate n (Failure in_progress)).
Proof.
  destruct (isCapturing s) eqn:Hflag.
  - rewrite captureFullPage_unfold, Hflag. split_and!; try done.
    intros r s' [= _ <-]. exists 0%nat. by rewrite app_nil_r.
  - pose proof (captureFullPage_idle B fuel options s Hflag) as H.
    destruct (captureFullPage B fuel options s) as [r s'| |]; [|done..].
    destruct H as (_ & _ & _ & Hheap & Hresp). split_and!; try done.
    + split; [|done]. intros [= _ ->]. lia.
    + by intros ? ? [= _ <-].
Qed.

End ContentScriptProofs.

(** * Properties of the background service worker *)

Module BackgroundProofs.
Import Background.

Lemma saveScreenshot_ok C screenshot s :
  storage_works C ->
  saveScreenshot C screenshot s =
    (Ok tt, {| storage := {| screenshots := Some (take 50 (screenshot :: history s));
                             settings := settings (storage s) |};
               console := console s; downloads := downloads s |}).
Proof.
  intros [Hget Hset].
  unfold saveScreenshot, try_catch, storage_get_screenshots,
    storage_set_screenshots, mbind, M_bind. rewrite Hget, Hset.
  fold (history s). case_decide; [done|].
  by rewrite take_ge by (simpl in *; lia).
Qed.

Lemma saveScreenshot_fails C screenshot s :
  ~ storage_works C ->
  exists message,
    saveScreenshot C screenshot s =
      (Throw "Failed to save screenshot to storage",
       {| storage := storage s;
          console := console s ++ [("Save screenshot error:", message)];
          downloads := downloads s |}).
Proof.
  intros Hfail.
  unfold saveScreenshot, try_catch, storage_get_screenshots,
    storage_set_screenshots, mbind, M_bind, console_error, throw.
  destruct (storage_local_get C) as [m|] eqn:Hget; [by exists m|].
  destruct (storage_local_set C) as [m|] eqn:Hset; [by exists m|].
  by destruct Hfail.
Qed.

(** Once the image is acquired, the response of [handleCapture] is
    decided by [saveScreenshot] and [downloadScreenshot]. *)
Lemma handleCapture_acquired C mode tab dataUrl s :
  acquires C mode tab dataUrl ->
  handleCapture C mode tab s =
    match saveScreenshot C (record_of C tab dataUrl) s with
    | (Ok _, s1) =>
        match downloadScreenshot C dataUrl (make_filename (Date_now C)) s1 with
        | (Ok _, s2) =>
            (Ok {| success := true; response_dataUrl := Some dataUrl;
                   response_filename := Some (make_filename (Date_now C));
                   response_error := None |}, s2)
        | (Throw e, s2) => (Ok (failure e), log_error "Capture error:" e s2)
        end
    | (Throw e, s1) => (Ok (failure e), log_error "Capture error:" e s1)
    end.
Proof.
  intros [(t & i & -> & Hid & Hi) Hmode].
  unfold handleCapture, try_catch, mbind, M_bind, mret, M_ret, throw. simpl.
  rewrite Hid. case_decide; [done|].
  destruct mode; rewrite Hmode; unfold record_of; simpl;
    (destruct (saveScreenshot _ _ _) as [[?|?] ?]; [|done]);
    by destruct (downloadScreenshot _ _ _ _) as [[?|?] ?].
Qed.

Lemma downloadScreenshot_fails C dataUrl filename message s :
  downloads_download C = Some message ->
  downloadScreenshot C dataUrl filename s =
    (Throw "Failed to download screenshot", log_error "Download error:" message s).
Proof.
  intros Hdl. unfold downloadScreenshot, try_catch. by rewrite Hdl.
Qed.

(** ** The claims on the history store and the coordinator *)

(** C1, as stated, fails: with the cap configured to 10 and ten records
    stored, an insert leaves eleven. *)
Lemma saveScreenshot_ignores_maxHistory :
  let s := store (shot <$> seqZ 1 10) (Some ten_at_most) in
  let s' := (saveScreenshot working (shot 11) s).2 in
  configured_maxHistory s' = 10 /\
  length (history s') = 11%nat /\
  ~ (Z.of_nat (length (history s')) <= configured_maxHistory s').
Proof. vm_compute. split_and!; [done..|]. intros H. by apply H. Qed.

(** C1, amended: when the storage calls resolve, [saveScreenshot] puts
    the record at the front of the stored sequence and, if that makes
    more than 50 entries (a constant: the [maxHistory] setting is not
    read), cuts the sequence from the tail to exactly 50; so the stored
    sequence has at most 50 entries and the record is first. *)
Theorem saveScreenshot_bounded C screenshot s :
  storage_works C ->
  exists s',
    saveScreenshot C screenshot s = (Ok tt, s') /\
    history s' = take 50 (screenshot :: history s) /\
    head (history s') = Some screenshot /\
    (length (history s') <= 50)%nat /\
    ((50 < length (screenshot :: history s))%nat -> length (history s') = 50%nat) /\
    ((length (screenshot :: history s) <= 50)%nat ->
       history s' = screenshot :: history s) /\
    settings (storage s') = settings (storage s).
Proof.
  intros Hworks. eexists. split; [by apply saveScreenshot_ok|].
  match goal with
  | |- history ?s' = ?l /\ _ => assert (history s' = l) as Hh by done
  end.
  split_and!; rewrite ?Hh; try done.
  - rewrite length_take. lia.
  - intros H. rewrite length_take. lia.
  - intros H. by rewrite take_ge.
Qed.

(** An insert into a store that already holds fifty records. *)
Lemma saveScreenshot_bounded_full_store :
  let s := store (shot <$> seqZ 1 50) (Some ten_at_most) in
  storage_works working /\
  exists s',
    saveScreenshot working (shot 51) s = (Ok tt, s') /\
    history s' = take 50 (shot 51 :: history s) /\
    head (history s') = Some (shot 51) /\
    (length (history s') <= 50)%nat /\
    ((50 < length (shot 51 :: history s))%nat -> length (history s') = 50%nat) /\
    ((length (shot 51 :: history s) <= 50)%nat ->
       history s' = shot 51 :: history s) /\
    settings (storage s') = settings (storage s).
Proof.
  intros s. assert (storage_works working) as Hworks by (split; reflexivity).
  split; [exact Hworks|].
  exact (saveScreenshot_bounded working (shot 51) s Hworks).
Defined.

(** C6, as stated, fails: the visible area is captured, the write to
    storage is rejected, and the response is a failure without image or
    filename. *)
Lemma handleCapture_storage_full :
  let r := (handleCapture storage_full visible (Some example_tab) (store [] None)).1 in
  acquires storage_full visible (Some example_tab) "data:image/png;base64,AAAA" /\
  r = Ok (failure "Failed to save screenshot to storage") /\
  ~ (exists response, r = Ok response /\ success response = true).
Proof.
  split_and!.
  - split; [|done]. by exists example_tab, 7.
  - reflexivity.
  - intros (response & [= <-] & Hsuccess). discriminate Hsuccess.
Qed.

(** C6, amended: for every capture (visible or full) whose image
    acquisition succeeds, if the insert into the history store then
    fails, the failure is written to the console and the response is a
    failure whose error is "Failed to save screenshot to storage",
    carrying neither image nor filename; the stored data is left as it
    was and no download is started. *)
Theorem handleCapture_insert_failure C mode tab dataUrl s :
  acquires C mode tab dataUrl ->
  ~ storage_works C ->
  exists message,
    handleCapture C mode tab s =
      (Ok (failure "Failed to save screenshot to storage"),
       {| storage := storage s;
          console := console s
            ++ [("Save screenshot error:", message);
                ("Capture error:", "Failed to save screenshot to storage")];
          downloads := downloads s |}).
Proof.
  intros Hacq Hfail.
  destruct (saveScreenshot_fails C (record_of C tab dataUrl) s Hfail) as [m Hsave].
  exists m. rewrite (handleCapture_acquired C mode tab dataUrl s Hacq), Hsave.
  unfold log_error. simpl. by rewrite <- (assoc_L (++)).
Qed.

(** A full-page capture whose record the storage refuses. *)
Lemma handleCapture_insert_failure_storage_full :
  (acquires storage_full full (Some example_tab) "data:image/png;base64,BBBB" /\
   ~ storage_works storage_full) /\
  exists message,
    handleCapture storage_full full (Some example_tab) (store [shot 1] None) =
      (Ok (failure "Failed to save screenshot to storage"),
       {| storage := storage (store [shot 1] None);
          console := console (store [shot 1] None)
            ++ [("Save screenshot error:", message);
                ("Capture error:", "Failed to save screenshot to storage")];
          downloads := downloads (store [shot 1] None) |}).
Proof.
  assert (acquires storage_full full (Some example_tab) "data:image/png;base64,BBBB")
    as Hacq.
  { split; [|reflexivity]. exists example_tab, 7. split_and!; [reflexivity..|discriminate]. }
  assert (~ storage_works storage_full) as Hfail.
  { intros [_ Hset]. discriminate Hset. }
  split; [by split|].
  exact (handleCapture_insert_failure storage_full full (Some example_tab)
           "data:image/png;base64,BBBB" (store [shot 1] None) Hacq Hfail).
Defined.

(** C7, as stated, fails: the visible area is captured and stored, the
    download is rejected, and the response is a failure. *)
Lemma handleCapture_download_refused :
  let r := (handleCapture download_refused visible (Some example_tab) (store [] None)).1 in
  acquires download_refused visible (Some example_tab) "data:image/png;base64,AAAA" /\
  r = Ok (failure "Failed to download screenshot") /\
  ~ (exists response, r = Ok response /\ success response = true).
Proof.
  split_and!.
  - split; [|done]. by exists example_tab, 7.
  - reflexivity.
  - intros (response & [= <-] & Hsuccess). discriminate Hsuccess.
Qed.

(** C7, amended: for every capture whose image acquisition succeeds and
    whose record is stored, a failure of the download is written to the
    console and is propagated to the capture result: the response is a
    failure whose error is "Failed to download screenshot", carrying
    neither image nor filename, while the record stays in the history. *)
Theorem handleCapture_download_failure C mode tab dataUrl message s :
  acquires C mode tab dataUrl ->
  storage_works C ->
  downloads_download C = Some message ->
  exists s',
    handleCapture C mode tab s =
      (Ok (failure "Failed to download screenshot"), s') /\
    console s' = console s
      ++ [("Download error:", message);
          ("Capture error:", "Failed to download screenshot")] /\
    history s' = take 50 (record_of C tab dataUrl :: history s) /\
    downloads s' = downloads s.
Proof.
  intros Hacq Hworks Hdl. eexists.
  rewrite (handleCapture_acquired C mode tab dataUrl s Hacq).
  rewrite (saveScreenshot_ok C _ s Hworks).
  rewrite (downloadScreenshot_fails C _ _ message _ Hdl).
  split; [reflexivity|]. simpl. by rewrite <- (assoc_L (++)).
Qed.

(** A full-page capture whose download is refused. *)
Lemma handleCapture_download_failure_refused :
  (acquires download_refused full (Some example_tab) "data:image/png;base64,BBBB" /\
   storage_works download_refused /\
   downloads_download download_refused = Some "Invalid filename") /\
  exists s',
    handleCapture download_refused full (Some example_tab) (store [shot 1] None) =
      (Ok (failure "Failed to download screenshot"), s') /\
    console s' = console (store [shot 1] None)
      ++ [("Download error:", "Invalid filename");
          ("Capture error:", "Failed to download screenshot")] /\
    history s' =
      take 50 (record_of download_refused (Some example_tab)
                 "data:image/png;base64,BBBB" :: history (store [shot 1] None)) /\
    downloads s' = downloads (store [shot 1] None).
Proof.
  assert (acquires download_refused full (Some example_tab)
            "data:image/png;base64,BBBB") as Hacq.
  { split; [|reflexivity]. exists example_tab, 7. split_and!; [reflexivity..|discriminate]. }
  assert (storage_works download_refused) as Hworks by (split; reflexivity).
  split; [by split_and!|].
  exact (handleCapture_download_failure download_refused full (Some example_tab)
           "data:image/png;base64,BBBB" "Invalid filename" (store [shot 1] None)
           Hacq Hworks eq_refl).
Defined.

(** When nothing fails, the response is a success carrying the image
    and the filename, the record is in front of the history and one
    download is started. *)
Lemma handleCapture_success C mode tab dataUrl s :
  acquires C mode tab dataUrl ->
  storage_works C ->
  downloads_download C = None ->
  exists s',
    handleCapture C mode tab s =
      (Ok {| success := true; response_dataUrl := Some dataUrl;
             response_filename := Some (make_filename (Date_now C));
             response_error := None |}, s') /\
    history s' = take 50 (record_of C tab dataUrl :: history s) /\
    downloads s' = downloads s ++ [(dataUrl, make_filename (Date_now C))] /\
    console s' = console s.
Proof.
  intros Hacq Hworks Hdl. eexists.
  rewrite (handleCapture_acquired C mode tab dataUrl s Hacq).
  rewrite (saveScreenshot_ok C _ s Hworks).
  unfold downloadScreenshot, try_catch. rewrite Hdl. done.
Qed.

(** ** Deleting from the history *)

Lemma deleteScreenshot_ok C i s :
  storage_works C ->
  deleteScreenshot C i s =
    (Ok deleted,
     {| storage := {| screenshots := Some (filter (fun x => id x <> i) (history s));
                      settings := settings (storage s) |};
        console := console s; downloads := downloads s |}).
Proof.
  intros [Hget Hset].
  unfold deleteScreenshot, try_catch, storage_get_screenshots,
    storage_set_screenshots, mbind, M_bind, mret, M_ret.
  by rewrite Hget, Hset.
Qed.

Lemma filter_all {A} (P : A -> Prop) `{!forall x, Decision (P x)} (l : list A) :
  (forall x, x ∈ l -> P x) -> filter P l = l.
Proof.
  induction l as [|x l IH]; intros Hall; [done|].
  rewrite filter_cons_True by (apply Hall; left).
  f_equal. apply IH. intros y Hy. apply Hall. by right.
Qed.

(** C8: when the storage calls resolve, deleting an id that no stored
    record carries reports success and leaves the stored sequence as it
    was: the same records in the same order. *)
Theorem deleteScreenshot_absent C i s :
  storage_works C ->
  (forall x, x ∈ history s -> id x <> i) ->
  exists s',
    deleteScreenshot C i s = (Ok deleted, s') /\
    history s' = history s.
Proof.
  intros Hworks Habsent. eexists. split; [by apply deleteScreenshot_ok|].
  unfold history at 1. simpl. by apply filter_all.
Qed.

(** Deleting an id that none of three stored records carries. *)
Lemma deleteScreenshot_absent_three :
  let s := store [shot 3; shot 2; shot 1] None in
  (storage_works working /\
   forall x, x ∈ history s -> id x <> "screenshot_4") /\
  exists s',
    deleteScreenshot working "screenshot_4" s = (Ok deleted, s') /\
    history s' = history s.
Proof.
  intros s.
  assert (storage_works working) as Hworks by (split; reflexivity).
  assert (forall x, x ∈ history s -> id x <> "screenshot_4") as Habsent.
  { intros x Hx. change (history s) with [shot 3; shot 2; shot 1] in Hx.
    rewrite !elem_of_cons, elem_of_nil in Hx.
    destruct Hx as [->|[->|[->|[]]]]; vm_compute; discriminate. }
  split; [by split|].
  exact (deleteScreenshot_absent working "screenshot_4" s Hworks Habsent).
Defined.

(** C10: when the storage calls resolve, deleting an id removes every
    stored record that carries it, also when several do: what is stored
    afterwards is the records whose id differs, a subsequence of the
    sequence before, in the same relative order. *)
Theorem deleteScreenshot_removes_all C i s :
  storage_works C ->
  exists s',
    deleteScreenshot C i s = (Ok deleted, s') /\
    history s' = filter (fun x => id x <> i) (history s) /\
    history s' `sublist_of` history s /\
    (forall x, x ∈ history s' <-> x ∈ history s /\ id x <> i).
Proof.
  intros Hworks. eexists. split; [by apply deleteScreenshot_ok|].
  match goal with
  | |- history ?s' = ?l /\ _ => assert (history s' = l) as Hh by done
  end.
  rewrite Hh. split_and!; [done| |].
  - apply sublist_filter.
  - intros x. rewrite list_elem_of_filter. tauto.
Qed.

(** Deleting an id that two of four stored records carry. *)
Lemma deleteScreenshot_removes_all_twice :
  let s := store [shot 2; shot 1; shot 3; shot 1] None in
  storage_works working /\
  exists s',
    deleteScreenshot working "screenshot_1" s = (Ok deleted, s') /\
    history s' = filter (fun x => id x <> "screenshot_1") (history s) /\
    history s' `sublist_of` history s /\
    (forall x, x ∈ history s' <-> x ∈ history s /\ id x <> "screenshot_1").
Proof.
  intros s. assert (storage_works working) as Hworks by (split; reflexivity).
  split; [exact Hworks|].
  exact (deleteScreenshot_removes_all working "screenshot_1" s Hworks).
Defined.

(** Two records with the same id are both removed. *)
Example deleteScreenshot_duplicates :
  history (deleteScreenshot working "screenshot_1"
             (store [shot 2; shot 1; shot 3; shot 1] None)).2
  = [shot 2; shot 3].
Proof. by vm_compute. Qed.

End BackgroundProofs.

(** * Further properties of the background service worker *)

Module BackgroundExtras.
Import Background BackgroundProofs.

Lemma history_saveScreenshot C r s :
  storage_works C ->
  history (saveScreenshot C r s).2 = take 50 (r :: history s).
Proof. intros Hworks. by rewrite (saveScreenshot_ok C r s Hworks). Qed.

Lemma take_cons_take {A} (x : A) (l : list A) :
  take 50 (x :: take 50 l) = take 50 (x :: l).
Proof. simpl. f_equal. by rewrite take_take. Qed.

(** Listing after an insert: the record comes first, at most 50 records
    are listed, and listing changes nothing. *)
Theorem getScreenshotHistory_after_saveScreenshot C C' r s :
  storage_works C ->
  storage_local_get C' = None ->
  exists l,
    getScreenshotHistory C' (saveScreenshot C r s).2 =
      (Ok {| history_success := true; history_screenshots := Some (r :: l);
             history_error := None |},
       (saveScreenshot C r s).2) /\
    l = take 49 (history s) /\
    (length (r :: l) <= 50)%nat.
Proof.
  intros Hworks Hget. exists (take 49 (history s)).
  rewrite (saveScreenshot_ok C r s Hworks).
  unfold getScreenshotHistory, try_catch, storage_get_screenshots, mbind, M_bind.
  rewrite Hget. split_and!; [done..|].
  simpl. rewrite length_take. lia.
Qed.

(** Listing after an insert into a store of fifty records. *)
Lemma getScreenshotHistory_after_saveScreenshot_full :
  let s := store (shot <$> seqZ 1 50) None in
  (storage_works working /\ storage_local_get working = None) /\
  exists l,
    getScreenshotHistory working (saveScreenshot working (shot 51) s).2 =
      (Ok {| history_success := true; history_screenshots := Some (shot 51 :: l);
             history_error := None |},
       (saveScreenshot working (shot 51) s).2) /\
    l = take 49 (history s) /\
    (length (shot 51 :: l) <= 50)%nat.
Proof.
  intros s. assert (storage_works working) as Hworks by (split; reflexivity).
  split; [by split|].
  exact (getScreenshotHistory_after_saveScreenshot working working (shot 51) s
           Hworks eq_refl).
Defined.

(** After any run of one or more inserts the store holds the records
    inserted, the last inserted first, followed by what it held before,
    cut to 50 entries. *)
Theorem save_all_history C rs s :
  storage_works C ->
  rs <> [] ->
  history (save_all C rs s) = take 50 (reverse rs ++ history s) /\
  (length (history (save_all C rs s)) <= 50)%nat.
Proof.
  intros Hworks Hrs.
  assert (history (save_all C rs s) = take 50 (reverse rs ++ history s)) as ->.
  { induction rs as [|r rs IH] using rev_ind; [done|]. clear Hrs.
    unfold save_all in *. rewrite foldl_snoc, history_saveScreenshot by done.
    rewrite reverse_snoc. destruct rs as [|r' rs _] using rev_ind; [done|].
    rewrite IH by (by destruct rs). by rewrite take_cons_take. }
  split; [done|]. rewrite length_take. lia.
Qed.

(** Sixty inserts into an empty store. *)
Lemma save_all_history_sixty :
  let rs := shot <$> seqZ 1 60 in
  (storage_works working /\ rs <> []) /\
  history (save_all working rs (store [] None))
    = take 50 (reverse rs ++ history (store [] None)) /\
  (length (history (save_all working rs (store [] None))) <= 50)%nat.
Proof.
  intros rs. assert (storage_works working) as Hworks by (split; reflexivity).
  assert (rs <> []) as Hrs by (vm_compute; discriminate).
  split; [by split|].
  exact (save_all_history working rs (store [] None) Hworks Hrs).
Defined.

Lemma newest_first_take n l : newest_first l -> newest_first (take n l).
Proof.
  unfold newest_first. intros Hl. rewrite <- (take_drop n l) in Hl.
  by apply StronglySorted_app_1_l in Hl.
Qed.

(** An insert keeps the store ordered newest first, when the record is
    at least as recent as every stored one. *)
Theorem saveScreenshot_newest_first C r s :
  storage_works C ->
  newest_first (history s) ->
  (forall x, x ∈ history s -> timestamp x <= timestamp r) ->
  newest_first (history (saveScreenshot C r s).2).
Proof.
  intros Hworks Hsorted Hr. rewrite history_saveScreenshot by done.
  apply newest_first_take. apply StronglySorted_cons. split; [|done].
  by apply Forall_forall.
Qed.

(** An insert of a later record into a store of three. *)
Lemma saveScreenshot_newest_first_three :
  let s := store [shot 3; shot 2; shot 1] None in
  (storage_works working /\ newest_first (history s) /\
   forall x, x ∈ history s -> timestamp x <= timestamp (shot 4)) /\
  newest_first (history (saveScreenshot working (shot 4) s).2).
Proof.
  intros s. assert (storage_works working) as Hworks by (split; reflexivity).
  assert (newest_first (history s)) as Hsorted.
  { change (history s) with [shot 3; shot 2; shot 1].
    repeat (apply SSorted_cons; [|repeat constructor; vm_compute; discriminate]).
    apply SSorted_nil. }
  assert (forall x, x ∈ history s -> timestamp x <= timestamp (shot 4)) as Hr.
  { intros x Hx. change (history s) with [shot 3; shot 2; shot 1] in Hx.
    rewrite !elem_of_cons, elem_of_nil in Hx.
    destruct Hx as [->|[->|[->|[]]]]; vm_compute; discriminate. }
  split; [by split_and!|].
  exact (saveScreenshot_newest_first working (shot 4) s Hworks Hsorted Hr).
Defined.

Lemma history_handleCapture C mode tab dataUrl s :
  acquires C mode tab dataUrl ->
  storage_works C ->
  history (handleCapture C mode tab s).2
    = take 50 (record_of C tab dataUrl :: history s).
Proof.
  intros Hacq Hworks.
  rewrite (handleCapture_acquired C mode tab dataUrl s Hacq).
  rewrite (saveScreenshot_ok C _ s Hworks).
  unfold downloadScreenshot, try_catch.
  by destruct (downloads_download C).
Qed.

Lemma timestamp_ids_NoDup l :
  timestamp_ids l -> NoDup (timestamp <$> l) -> NoDup (id <$> l).
Proof.
  intros Hids Hts.
  replace (id <$> l)
    with ((fun t => "screenshot_" +:+ pretty t) <$> (timestamp <$> l)).
  - apply NoDup_fmap_2; [|done]. intros t1 t2 Ht. by simplify_eq.
  - rewrite <- list_fmap_compose. apply list_fmap_ext.
    intros i x Hx. simpl. symmetry. apply Hids. by eapply list_elem_of_lookup_2.
Qed.

(** A capture whose timestamp no stored record has keeps the ids of the
    store distinct: every record keeps the id derived from its timestamp,
    and no two records share an id. *)
Theorem handleCapture_distinct_ids C mode tab dataUrl s :
  acquires C mode tab dataUrl ->
  storage_works C ->
  timestamp_ids (history s) ->
  NoDup (timestamp <$> history s) ->
  getTime (Date_now C) ∉ timestamp <$> history s ->
  timestamp_ids (history (handleCapture C mode tab s).2) /\
  NoDup (id <$> history (handleCapture C mode tab s).2).
Proof.
  intros Hacq Hworks Hids Hts Hnew.
  rewrite (history_handleCapture C mode tab dataUrl s Hacq Hworks).
  assert (timestamp_ids (record_of C tab dataUrl :: history s)) as Hids'.
  { intros x [->|Hx]%elem_of_cons; [done|by apply Hids]. }
  assert (NoDup (timestamp <$> record_of C tab dataUrl :: history s)) as Hts'.
  { rewrite fmap_cons. by apply NoDup_cons. }
  assert (timestamp_ids (take 50 (record_of C tab dataUrl :: history s))) as Hids''.
  { intros x Hx. apply Hids'. eapply elem_of_sublist; [done|]. apply sublist_take. }
  split; [done|]. apply timestamp_ids_NoDup; [done|].
  rewrite fmap_take. eapply sublist_NoDup; [done|]. apply sublist_take.
Qed.

(** A capture at a fresh timestamp into a store of three. *)
Lemma handleCapture_distinct_ids_three :
  let s := store [shot 3; shot 2; shot 1] None in
  (acquires working visible (Some example_tab) "data:image/png;base64,AAAA" /\
   storage_works working /\
   timestamp_ids (history s) /\
   NoDup (timestamp <$> history s) /\
   getTime (Date_now working) ∉ timestamp <$> history s) /\
  timestamp_ids (history (handleCapture working visible (Some example_tab) s).2) /\
  NoDup (id <$> history (handleCapture working visible (Some example_tab) s).2).
Proof.
  intros s.
  assert (acquires working visible (Some example_tab) "data:image/png;base64,AAAA")
    as Hacq.
  { split; [|reflexivity]. exists example_tab, 7. split_and!; [reflexivity..|discriminate]. }
  assert (storage_works working) as Hworks by (split; reflexivity).
  assert (timestamp_ids (history s)) as Hids.
  { intros x Hx. change (history s) with [shot 3; shot 2; shot 1] in Hx.
    rewrite !elem_of_cons, elem_of_nil in Hx.
    destruct Hx as [->|[->|[->|[]]]]; reflexivity. }
  assert (NoDup (timestamp <$> history s)) as Hts.
  { change (timestamp <$> history s) with [3; 2; 1].
    repeat (apply NoDup_cons; split;
            [rewrite ?elem_of_cons, elem_of_nil; intros H; repeat destruct H as [H|H];
             discriminate || done|]).
    apply NoDup_nil_2. }
  assert (getTime (Date_now working) ∉ timestamp <$> history s) as Hnew.
  { change (timestamp <$> history s) with [3; 2; 1].
    rewrite !elem_of_cons, elem_of_nil. intros H; repeat destruct H as [H|H];
      discriminate || done. }
  split; [by split_and!|].
  exact (handleCapture_distinct_ids working visible (Some example_tab)
           "data:image/png;base64,AAAA" s Hacq Hworks Hids Hts Hnew).
Defined.

(** *** Captures that overlap *)

Lemma run_then {A B} (t : Task A) (k : A -> Task B) s :
  run (t ≫= k) s =
    match run t s with
    | (Ok a, s') => run (k a) s'
    | (Throw e, s') => (Throw e, s')
    end.
Proof.
  revert s. induction t as [[a|e]|effect next IH|X call resume IH]; intros s;
    simpl; try done.
  destruct (call s) as [r s']. apply IH.
Qed.

Lemma run_try_catch {A} (t : Task A) (h : string -> Task A) s :
  run (Async.try_catch t h) s =
    match run t s with
    | (Ok a, s') => (Ok a, s')
    | (Throw e, s') => run (h e) s'
    end.
Proof.
  revert s. induction t as [[a|e]|effect next IH|X call resume IH]; intros s;
    simpl; try done.
  destruct (call s) as [r s']. apply IH.
Qed.

Lemma run_then_eq {A B} (t : Task A) (k : A -> Task B) (m : M A) (f : A -> M B) :
  (forall s, run t s = m s) -> (forall a s, run (k a) s = f a s) ->
  forall s, run (t ≫= k) s = (m ≫= f) s.
Proof.
  intros Ht Hk s. rewrite run_then, Ht. unfold mbind, M_bind.
  destruct (m s) as [[a|e] s']; [apply Hk|done].
Qed.

Lemma run_try_catch_eq {A} (t : Task A) (h : string -> Task A) (m : M A)
    (g : string -> M A) :
  (forall s, run t s = m s) -> (forall e s, run (h e) s = g e s) ->
  forall s, run (Async.try_catch t h) s = try_catch m g s.
Proof.
  intros Ht Hh s. rewrite run_try_catch, Ht. unfold try_catch.
  destruct (m s) as [[a|e] s']; [done|apply Hh].
Qed.

Lemma run_await {X} (call : M X) s : run (Async.await call) s = call s.
Proof. simpl. by destruct (call s). Qed.

Lemma run_saveScreenshot C r s :
  run (Async.saveScreenshot C r) s = saveScreenshot C r s.
Proof.
  revert s. apply run_try_catch_eq.
  - apply run_then_eq; [apply run_await|]. intros l. apply run_await.
  - intros e. by apply run_then_eq.
Qed.

Lemma run_downloadScreenshot C d f s :
  run (Async.downloadScreenshot C d f) s = downloadScreenshot C d f s.
Proof.
  revert s. apply run_try_catch_eq.
  - apply run_await.
  - intros e. by apply run_then_eq.
Qed.

(** Run on its own, [handleCapture] with its awaits kept apart is
    [handleCapture]. *)
Lemma run_handleCapture C mode tab s :
  run (Async.handleCapture C mode tab) s = handleCapture C mode tab s.
Proof.
  revert s. apply run_try_catch_eq.
  - apply run_then_eq.
    { destruct tab as [t|]; [|done]. destruct (tab_id t); [|done].
      by case_decide. }
    intros t. apply run_then_eq.
    { destruct mode; [apply run_await|].
      apply run_then_eq; [apply run_await|]. by intros []. }
    intros d. apply run_then_eq; [apply run_saveScreenshot|].
    intros _. apply run_then_eq; [apply run_downloadScreenshot|]. done.
  - intros e. by apply run_then_eq.
Qed.

Lemma two_turns_each_cases l :
  two_turns_each l ->
  l = [first; first; second; second] \/ l = [first; second; first; second] \/
  l = [first; second; second; first] \/ l = [second; first; first; second] \/
  l = [second; first; second; first] \/ l = [second; second; first; first].
Proof.
  intros [H1 H2].
  destruct l as [|[] [|[] [|[] [|[] [|[] l]]]]]; simpl in *; try lia; try tauto;
    exfalso; clear -H1 H2;
    repeat (rewrite filter_cons in *; simpl in * );
    repeat case_decide; simpl in *; try lia; try done.
Qed.

(** What two captures leave in the history depends on how they
    overlap. Both acquire their image, and storage and downloads work.
    Handled one after the other, both records are stored, the later
    first, under one id when their clocks read the same millisecond.
    When they overlap so that each reads the history before the other
    writes it back (each takes its first two turns, the acquisition and
    the read, before either takes its last two, the write and the
    download), both answer success and both downloads start, yet only
    one record is stored: that of the capture that writes last; the
    record written first is lost. *)
Theorem handleCapture_overlapping C1 C2 mode1 mode2 tab1 tab2 d1 d2 reads writes s :
  acquires C1 mode1 tab1 d1 -> storage_works C1 -> downloads_download C1 = None ->
  acquires C2 mode2 tab2 d2 -> storage_works C2 -> downloads_download C2 = None ->
  two_turns_each reads -> two_turns_each writes ->
  let r1 := record_of C1 tab1 d1 in
  let r2 := record_of C2 tab2 d2 in
  history (handleCapture C2 mode2 tab2 (handleCapture C1 mode1 tab1 s).2).2
    = take 50 (r2 :: r1 :: history s) /\
  (getTime (Date_now C1) = getTime (Date_now C2) -> id r1 = id r2) /\
  exists s' new,
    overlapped (reads ++ writes) (Async.handleCapture C1 mode1 tab1)
      (Async.handleCapture C2 mode2 tab2) s
    = (Settled (Ok {| success := true; response_dataUrl := Some d1;
                      response_filename := Some (filename r1);
                      response_error := None |}),
       Settled (Ok {| success := true; response_dataUrl := Some d2;
                      response_filename := Some (filename r2);
                      response_error := None |}), s') /\
    history s'
      = take 50 ((if head writes is Some first then r2 else r1) :: history s) /\
    downloads s' = downloads s ++ new /\
    new ≡ₚ [(d1, filename r1); (d2, filename r2)] /\
    console s' = console s.
Proof.
  intros Hacq1 Hworks1 Hdl1 Hacq2 Hworks2 Hdl2 Hreads Hwrites r1 r2.
  split_and!.
  { rewrite (history_handleCapture C2 _ _ d2 _ Hacq2 Hworks2).
    rewrite (history_handleCapture C1 _ _ d1 _ Hacq1 Hworks1).
    apply take_cons_take. }
  { intros Htime. subst r1 r2. unfold record_of. simpl. by rewrite Htime. }
  destruct Hacq1 as [(t1 & i1 & -> & Hid1 & Hi1) Hmode1].
  destruct Hacq2 as [(t2 & i2 & -> & Hid2 & Hi2) Hmode2].
  destruct Hworks1 as [Hget1 Hset1]. destruct Hworks2 as [Hget2 Hset2].
  unfold overlapped, Async.handleCapture.
  rewrite Hid1, Hid2.
  destruct (decide (i1 = 0)) as [?|_]; [done|].
  destruct (decide (i2 = 0)) as [?|_]; [done|].
  apply two_turns_each_cases in Hreads, Hwrites.
  subst r1 r2. unfold record_of, history.
  destruct mode1, mode2; simpl in Hmode1, Hmode2;
    destruct Hreads as [->|[->|[->|[->|[->| ->]]]]];
    destruct Hwrites as [->|[->|[->|[->|[->| ->]]]]];
    simpl;
    rewrite ?Hmode1, ?Hmode2; simpl;
    unfold storage_get_screenshots, storage_set_screenshots;
    rewrite ?Hget1, ?Hget2, ?Hset1, ?Hset2, ?Hdl1, ?Hdl2; simpl.
  all: eexists _, _; split; [reflexivity|]; simpl.
  all: split_and!;
    [ case_decide; [done|]; by rewrite take_ge by lia
    | rewrite <- (assoc_L (++)); reflexivity
    | simpl; (reflexivity || apply perm_swap)
    | done ].
Qed.

(** The visible area and the full page of one tab, captured in the same
    millisecond, the two functions taking their turns alternately. *)
Lemma handleCapture_overlapping_alternately :
  let tab := Some example_tab in
  let d1 := "data:image/png;base64,AAAA" in
  let d2 := "data:image/png;base64,BBBB" in
  let s := store [shot 1] None in
  let r1 := record_of working tab d1 in
  let r2 := record_of working tab d2 in
  (acquires working visible tab d1 /\ acquires working full tab d2 /\
   storage_works working /\ downloads_download working = None /\
   two_turns_each alternately /\
   getTime (Date_now working) = getTime (Date_now working)) /\
  history (handleCapture working full tab (handleCapture working visible tab s).2).2
    = take 50 (r2 :: r1 :: history s) /\
  id r1 = id r2 /\
  exists s' new,
    overlapped (alternately ++ alternately) (Async.handleCapture working visible tab)
      (Async.handleCapture working full tab) s
    = (Settled (Ok {| success := true; response_dataUrl := Some d1;
                      response_filename := Some (filename r1);
                      response_error := None |}),
       Settled (Ok {| success := true; response_dataUrl := Some d2;
                      response_filename := Some (filename r2);
                      response_error := None |}), s') /\
    history s'
      = take 50 ((if head alternately is Some first then r2 else r1) :: history s) /\
    downloads s' = downloads s ++ new /\
    new ≡ₚ [(d1, filename r1); (d2, filename r2)] /\
    console s' = console s.
Proof.
  intros tab d1 d2 s r1 r2.
  assert (acquires working visible tab d1) as Hacq1.
  { split; [|reflexivity]. exists example_tab, 7. split_and!; [reflexivity..|discriminate]. }
  assert (acquires working full tab d2) as Hacq2.
  { split; [|reflexivity]. exists example_tab, 7. split_and!; [reflexivity..|discriminate]. }
  assert (storage_works working) as Hworks by (split; reflexivity).
  assert (two_turns_each alternately) as Hturns by (split; reflexivity).
  split; [by split_and!|].
  pose proof (handleCapture_overlapping working working visible full tab tab d1 d2
                alternately alternately s Hacq1 Hworks eq_refl Hacq2 Hworks eq_refl
                Hturns Hturns) as (Hseq & Hid & Hover).
  split_and!; [exact Hseq|exact (Hid eq_refl)|exact Hover].
Defined.

(** The same two captures, run: after both have answered success the
    history holds the record of the full page only. *)
Example handleCapture_overlapping_lost :
  let tab := Some example_tab in
  let s := store [shot 1] None in
  let '(a, b, s') :=
    overlapped (alternately ++ alternately) (Async.handleCapture working visible tab)
      (Async.handleCapture working full tab) s in
  dataUrl <$> history s' = ["data:image/png;base64,BBBB"; dataUrl (shot 1)] /\
  fst <$> downloads s' = ["data:image/png;base64,AAAA"; "data:image/png;base64,BBBB"].
Proof. by vm_compute. Qed.

Lemma acquisition_error_None C mode tab :
  acquisition_error C mode tab = None -> exists d, acquires C mode tab d.
Proof.
  unfold acquisition_error, acquires. intros H.
  destruct tab as [t|]; simpl in H; [|done].
  destruct (tab_id t) as [i|] eqn:Hid; [|done].
  case_decide; [done|].
  destruct mode.
  - destruct (tabs_captureVisibleTab C) as [d|]; [|done].
    exists d. split; [|done]. by exists t, i.
  - destruct (tabs_sendMessage C) as [[d|]|]; [|done..].
    exists d. split; [|done]. by exists t, i.
Qed.

Lemma handleCapture_acquisition_error C mode tab e s :
  acquisition_error C mode tab = Some e ->
  handleCapture C mode tab s = (Ok (failure e), log_error "Capture error:" e s).
Proof.
  unfold acquisition_error, handleCapture, try_catch, mbind, M_bind, mret, M_ret, throw.
  intros H. destruct tab as [t|]; simpl in *; [|by simplify_eq].
  destruct (tab_id t) as [i|]; [|by simplify_eq].
  case_decide; [by simplify_eq|].
  destruct mode; simpl.
  - destruct (tabs_captureVisibleTab C); [discriminate|by injection H as <-].
  - destruct (tabs_sendMessage C) as [[d|err]|];
      [discriminate|by injection H as <-..].
Qed.

(** When the image is not acquired (no tab with a usable id, a rejected
    capture, or a content script that reports failure), the response is a
    failure carrying the cause, one line is written to the console, and
    nothing is stored or downloaded. *)
Theorem handleCapture_not_acquired C mode tab e s :
  acquisition_error C mode tab = Some e ->
  exists s',
    handleCapture C mode tab s = (Ok (failure e), s') /\
    storage s' = storage s /\
    downloads s' = downloads s /\
    console s' = console s ++ [("Capture error:", e)].
Proof.
  intros Hacq. rewrite (handleCapture_acquisition_error C mode tab e s Hacq).
  eexists. by split_and!.
Qed.

(** A full-page request whose content script reports failure without a
    message. *)
Lemma handleCapture_not_acquired_silent :
  let C := {| tabs_captureVisibleTab := Ok "";
              tabs_sendMessage := Ok (FullPageFailure None);
              Date_now := example_date;
              storage_local_get := None; storage_local_set := None;
              downloads_download := None |} in
  let s := store [shot 1] None in
  acquisition_error C full (Some example_tab) = Some "Full page capture failed" /\
  exists s',
    handleCapture C full (Some example_tab) s =
      (Ok (failure "Full page capture failed"), s') /\
    storage s' = storage s /\
    downloads s' = downloads s /\
    console s' = console s ++ [("Capture error:", "Full page capture failed")].
Proof.
  intros C s. split; [reflexivity|].
  exact (handleCapture_not_acquired C full (Some example_tab)
           "Full page capture failed" s eq_refl).
Defined.

(** [handleCapture] never throws. Its response is a success exactly when
    the image is acquired, the record is stored and the download starts;
    a success carries image and filename and no error, a failure carries
    an error and neither image nor filename. The stored settings are
    never changed. *)
Theorem handleCapture_response C mode tab s :
  exists response s',
    handleCapture C mode tab s = (Ok response, s') /\
    (success response = true <->
       acquisition_error C mode tab = None /\ storage_works C /\
       downloads_download C = None) /\
    (if success response
     then is_Some (response_dataUrl response) /\
          response_filename response = Some (make_filename (Date_now C)) /\
          response_error response = None
     else response_dataUrl response = None /\
          response_filename response = None /\
          is_Some (response_error response)) /\
    settings (storage s') = settings (storage s).
Proof.
  destruct (acquisition_error C mode tab) as [e|] eqn:Hacq.
  { rewrite (handleCapture_acquisition_error C mode tab e s Hacq).
    eexists _, _. split; [done|]. simpl. split_and!; eauto.
    split; [done|by intros [? _]]. }
  destruct (acquisition_error_None C mode tab Hacq) as [d Hd].
  rewrite (handleCapture_acquired C mode tab d s Hd).
  destruct (storage_local_get C) as [m|] eqn:Hget;
    [|destruct (storage_local_set C) as [m|] eqn:Hset].
  - destruct (saveScreenshot_fails C (record_of C tab d) s) as [m' ->].
    { intros [? ?]. congruence. }
    eexists _, _. split; [done|]. simpl. split_and!; eauto.
    split; [done|]. intros (_ & [? ?] & _). congruence.
  - destruct (saveScreenshot_fails C (record_of C tab d) s) as [m' ->].
    { intros [? ?]. congruence. }
    eexists _, _. split; [done|]. simpl. split_and!; eauto.
    split; [done|]. intros (_ & [? ?] & _). congruence.
  - rewrite (saveScreenshot_ok C _ s (conj Hget Hset)).
    unfold downloadScreenshot, try_catch.
    destruct (downloads_download C) as [m|] eqn:Hdl.
    + eexists _, _. split; [done|]. simpl. split_and!; eauto.
      split; [done|by intros (_ & _ & ?)].
    + eexists _, _. split; [done|]. simpl. split_and!; eauto.
      split; [|done]. intros _. by split_and!.
Qed.

Lemma deleteScreenshot_fails C i s :
  ~ storage_works C ->
  exists m,
    deleteScreenshot C i s =
      (Ok {| delete_success := false; delete_error := Some m |},
       log_error "Delete screenshot error:" m s).
Proof.
  intros Hfail.
  unfold deleteScreenshot, try_catch, storage_get_screenshots,
    storage_set_screenshots, mbind, M_bind, mret, M_ret, console_error.
  destruct (storage_local_get C) as [m|] eqn:Hget; [by exists m|].
  destruct (storage_local_set C) as [m|] eqn:Hset; [by exists m|].
  by destruct Hfail.
Qed.

Lemma storage_works_dec C : storage_works C \/ ~ storage_works C.
Proof.
  unfold storage_works.
  destruct (storage_local_get C), (storage_local_set C);
    (by left) || (right; intros [? ?]; discriminate).
Qed.

(** [deleteScreenshot] never throws and never makes the history longer.
    It reports success exactly when both storage calls resolve; when one
    rejects, the response carries the error, the stored data is as it was
    and one line is written to the console. No download is started. *)
Theorem deleteScreenshot_response C i s :
  exists response s',
    deleteScreenshot C i s = (Ok response, s') /\
    (delete_success response = true <-> storage_works C) /\
    (length (history s') <= length (history s))%nat /\
    (delete_success response = false ->
       storage s' = storage s /\ is_Some (delete_error response) /\
       length (console s') = S (length (console s))) /\
    downloads s' = downloads s /\
    settings (storage s') = settings (storage s).
Proof.
  destruct (storage_works_dec C) as [Hworks|Hfail].
  - rewrite (deleteScreenshot_ok C i s Hworks). eexists _, _.
    split; [done|]. split_and!; try done.
    unfold history at 1. simpl. apply length_filter.
  - destruct (deleteScreenshot_fails C i s Hfail) as [m ->]. eexists _, _.
    split; [done|]. simpl. split_and!; try done.
    intros _. split_and!; [done|by eexists|].
    rewrite length_app. simpl. lia.
Qed.

Lemma history_deleteScreenshot C i s :
  storage_works C ->
  history (deleteScreenshot C i s).2 = filter (fun x => id x <> i) (history s).
Proof. intros Hworks. by rewrite (deleteScreenshot_ok C i s Hworks). Qed.

(** Deleting the same id a second time changes nothing. *)
Theorem deleteScreenshot_idempotent C C' i s :
  storage_works C -> storage_works C' ->
  history (deleteScreenshot C' i (deleteScreenshot C i s).2).2
    = history (deleteScreenshot C i s).2.
Proof.
  intros Hworks Hworks'. rewrite !history_deleteScreenshot by done.
  apply filter_all. intros x Hx. by apply list_elem_of_filter in Hx as [? _].
Qed.

(** The same id deleted twice from a store in which it occurs twice. *)
Lemma deleteScreenshot_idempotent_twice :
  let s := store [shot 2; shot 1; shot 3; shot 1] None in
  (storage_works working /\ storage_works working) /\
  history (deleteScreenshot working "screenshot_1"
             (deleteScreenshot working "screenshot_1" s).2).2
    = history (deleteScreenshot working "screenshot_1" s).2.
Proof.
  intros s. assert (storage_works working) as Hworks by (split; reflexivity).
  split; [by split|].
  exact (deleteScreenshot_idempotent working working "screenshot_1" s Hworks Hworks).
Defined.

(** Two deletes leave the same history in either order. *)
Theorem deleteScreenshot_commute C1 C2 C3 C4 i j s :
  storage_works C1 -> storage_works C2 -> storage_works C3 -> storage_works C4 ->
  history (deleteScreenshot C2 j (deleteScreenshot C1 i s).2).2
    = history (deleteScreenshot C4 i (deleteScreenshot C3 j s).2).2.
Proof.
  intros H1 H2 H3 H4. rewrite !history_deleteScreenshot by done.
  rewrite !list_filter_filter. apply list_filter_iff. intros x. tauto.
Qed.

(** Two ids deleted from a store of four, in both orders. *)
Lemma deleteScreenshot_commute_two :
  let s := store [shot 4; shot 3; shot 2; shot 1] None in
  (storage_works working /\ storage_works working /\
   storage_works working /\ storage_works working) /\
  history (deleteScreenshot working "screenshot_3"
             (deleteScreenshot working "screenshot_1" s).2).2
    = history (deleteScreenshot working "screenshot_1"
                 (deleteScreenshot working "screenshot_3" s).2).2.
Proof.
  intros s. assert (storage_works working) as Hworks by (split; reflexivity).
  split; [by split_and!|].
  exact (deleteScreenshot_commute working working working working
           "screenshot_1" "screenshot_3" s Hworks Hworks Hworks Hworks).
Defined.

(** Inserting a record and then deleting its id gives back the history,
    when no stored record has that id and fewer than 50 are stored; in a
    store of 50 or more the insert has evicted the tail, which the delete
    does not bring back. *)
Theorem saveScreenshot_deleteScreenshot C C' r s :
  storage_works C -> storage_works C' ->
  (forall x, x ∈ history s -> id x <> id r) ->
  history (deleteScreenshot C' (id r) (saveScreenshot C r s).2).2
    = take 49 (history s) /\
  ((length (history s) < 50)%nat ->
   history (deleteScreenshot C' (id r) (saveScreenshot C r s).2).2 = history s).
Proof.
  intros Hworks Hworks' Hfresh.
  rewrite history_deleteScreenshot, history_saveScreenshot by done.
  simpl. rewrite filter_cons_False by naive_solver.
  rewrite filter_all.
  - split; [done|]. intros Hlen. apply take_ge. lia.
  - intros x Hx. apply Hfresh. eapply elem_of_sublist; [done|]. apply sublist_take.
Qed.

(** A fourth record inserted into a store of three and deleted again. *)
Lemma saveScreenshot_deleteScreenshot_three :
  let s := store [shot 3; shot 2; shot 1] None in
  (storage_works working /\ storage_works working /\
   forall x, x ∈ history s -> id x <> id (shot 4)) /\
  history (deleteScreenshot working (id (shot 4))
             (saveScreenshot working (shot 4) s).2).2
    = take 49 (history s) /\
  ((length (history s) < 50)%nat ->
   history (deleteScreenshot working (id (shot 4))
              (saveScreenshot working (shot 4) s).2).2 = history s).
Proof.
  intros s. assert (storage_works working) as Hworks by (split; reflexivity).
  assert (forall x, x ∈ history s -> id x <> id (shot 4)) as Hfresh.
  { intros x Hx. change (history s) with [shot 3; shot 2; shot 1] in Hx.
    rewrite !elem_of_cons, elem_of_nil in Hx.
    destruct Hx as [->|[->|[->|[]]]]; vm_compute; discriminate. }
  split; [by split_and!|].
  exact (saveScreenshot_deleteScreenshot working working (shot 4) s
           Hworks Hworks Hfresh).
Defined.

Lemma handleCapture_settings C mode tab s :
  exists response s',
    handleCapture C mode tab s = (Ok response, s') /\
    settings (storage s') = settings (storage s).
Proof.
  destruct (acquisition_error C mode tab) as [e|] eqn:Hacq.
  { rewrite (handleCapture_acquisition_error C mode tab e s Hacq). by eexists _, _. }
  destruct (acquisition_error_None C mode tab Hacq) as [d Hd].
  rewrite (handleCapture_acquired C mode tab d s Hd).
  destruct (storage_works_dec C) as [Hworks|Hfail].
  - rewrite (saveScreenshot_ok C _ s Hworks).
    unfold downloadScreenshot, try_catch.
    destruct (downloads_download C); by eexists _, _.
  - destruct (saveScreenshot_fails C (record_of C tab d) s Hfail) as [m ->].
    by eexists _, _.
Qed.

Lemma deleteScreenshot_frame C i s :
  exists response s',
    deleteScreenshot C i s = (Ok response, s') /\
    downloads s' = downloads s /\
    settings (storage s') = settings (storage s).
Proof.
  destruct (storage_works_dec C) as [Hworks|Hfail].
  - rewrite (deleteScreenshot_ok C i s Hworks). by eexists _, _.
  - destruct (deleteScreenshot_fails C i s Hfail) as [m ->]. by eexists _, _.
Qed.

(** The listener answers every message, with a response of the shape of
    its action: the handlers never throw, so the error response is sent
    for an unknown action only, and then nothing is changed. No message
    changes the stored settings; only [capture] starts a download; only
    [capture] and [deleteScreenshot] change the stored data. *)
Theorem onMessage_frame C message tab s :
  let r := (onMessage C message tab s).1 in
  let s' := (onMessage C message tab s).2 in
  match r with
  | CaptureResult _ => action message = "capture"
  | HistoryResult _ => action message = "getHistory"
  | DeleteResult _ => action message = "deleteScreenshot"
  | ErrorResponse e =>
      e = "Unknown action" /\ s' = s /\ action message <> "capture" /\
      action message <> "getHistory" /\ action message <> "deleteScreenshot"
  end /\
  settings (storage s') = settings (storage s) /\
  (action message <> "capture" -> downloads s' = downloads s) /\
  (action message <> "capture" -> action message <> "deleteScreenshot" ->
   storage s' = storage s).
Proof.
  unfold onMessage. repeat case_decide; simpl.
  - destruct (handleCapture_settings C (message_mode message) tab s)
      as (response & s' & Hrun & Hsettings).
    unfold respond_with. rewrite Hrun. simpl. by split_and!.
  - unfold respond_with, getScreenshotHistory, try_catch,
      storage_get_screenshots, mbind, M_bind, mret, M_ret, console_error.
    destruct (storage_local_get C); simpl; by split_and!.
  - destruct (deleteScreenshot_frame C (message_id message) s)
      as (response & s' & Hrun & Hdl & Hsettings).
    unfold respond_with. rewrite Hrun. simpl. by split_and!.
  - by split_and!.
Qed.

(** ** File names *)

Lemma string_length_app (s t : string) :
  String.length (s +:+ t) = (String.length s + String.length t)%nat.
Proof. induction s as [|a s IH]; simpl; [done|]. by rewrite IH. Qed.

Lemma string_app_inj_length (s1 s2 t1 t2 : string) :
  String.length s1 = String.length s2 ->
  s1 +:+ t1 = s2 +:+ t2 -> s1 = s2 /\ t1 = t2.
Proof.
  revert s2. induction s1 as [|a s1 IH]; intros [|b s2] Hlen Heq;
    simpl in *; try done.
  injection Heq as -> Heq. destruct (IH s2) as [-> ->]; [lia|done|done].
Qed.

Lemma string_app_inj_r (s1 s2 t : string) : s1 +:+ t = s2 +:+ t -> s1 = s2.
Proof.
  intros Heq. apply (string_app_inj_length s1 s2 t t); [|done].
  apply (f_equal String.length) in Heq. rewrite !string_length_app in Heq. lia.
Qed.

Lemma padStart2_length n : 0 <= n <= 99 -> String.length (padStart2 n) = 2%nat.
Proof.
  intros Hn.
  assert (Forall (fun n => String.length (padStart2 n) = 2%nat) (seqZ 0 100)) as H.
  { apply (bool_decide_unpack _). by vm_compute. }
  rewrite Forall_forall in H. apply H, elem_of_seqZ. lia.
Qed.

Lemma pretty_year_length y :
  1000 <= y <= 9999 -> String.length (pretty y) = 4%nat.
Proof.
  intros Hy.
  assert (Forall (fun y => String.length (pretty y) = 4%nat) (seqZ 1000 9000)) as H.
  { apply (bool_decide_unpack _). by vm_compute. }
  rewrite Forall_forall in H. apply H, elem_of_seqZ. lia.
Qed.

(** Captures at different instants get different file names, and
    different ids: for calendar dates, [make_filename] determines the
    timestamp, which follows the 25 characters of
    "screenshot_YYYYMMDD_HHMM_". *)
Theorem make_filename_inj d1 d2 :
  calendar_date d1 -> calendar_date d2 ->
  make_filename d1 = make_filename d2 ->
  getTime d1 = getTime d2 /\
  String.length (make_filename d1) = (29 + String.length (pretty (getTime d1)))%nat.
Proof.
  intros (Hy1 & Hm1 & Hd1 & Hh1 & Hmi1) (Hy2 & Hm2 & Hd2 & Hh2 & Hmi2) Heq.
  split.
  - unfold make_filename in Heq.
    apply (inj (String.app "screenshot_")) in Heq.
    apply string_app_inj_length in Heq as [_ Heq];
      [|by rewrite !pretty_year_length].
    apply string_app_inj_length in Heq as [_ Heq];
      [|by rewrite !padStart2_length by lia].
    apply string_app_inj_length in Heq as [_ Heq];
      [|by rewrite !padStart2_length by lia].
    apply (inj (String.app "_")) in Heq.
    apply string_app_inj_length in Heq as [_ Heq];
      [|by rewrite !padStart2_length by lia].
    apply string_app_inj_length in Heq as [_ Heq];
      [|by rewrite !padStart2_length by lia].
    apply (inj (String.app "_")) in Heq.
    apply string_app_inj_r in Heq. by apply (inj pretty) in Heq.
  - unfold make_filename. rewrite !string_length_app.
    rewrite pretty_year_length, !padStart2_length by lia. simpl. lia.
Qed.

(** The file name of the example date. *)
Lemma make_filename_inj_example :
  (calendar_date example_date /\ calendar_date example_date /\
   make_filename example_date = make_filename example_date) /\
  getTime example_date = getTime example_date /\
  String.length (make_filename example_date)
    = (29 + String.length (pretty (getTime example_date)))%nat.
Proof.
  assert (calendar_date example_date) as Hd.
  { unfold calendar_date. simpl. lia. }
  split; [by split_and!|].
  exact (make_filename_inj example_date example_date Hd Hd eq_refl).
Defined.

End BackgroundExtras.

(** * Further properties of the content script *)

Module ContentScriptExtras.
Import ContentScript ContentScriptProofs.

(** ** Invariants of a session *)

Section Invariant.
Variable B : Browser.
Variable fuel : nat.
Variable I : State -> Prop.
Hypothesis I_flag : forall s, I s -> isCapturing s = true.
Hypothesis I_now : forall s t, I s -> I (set_now t s).
Hypothesis I_respond : forall s rs, I s -> I (respond rs s).
Hypothesis I_emit : forall s e, I s -> I (emit e s).
Hypothesis I_scroll : forall s x y, I s -> I (set_scroll x y s).
Hypothesis I_draw : forall s c img x y,
  I s -> ctx s = Some c -> I (drawImage c img x y s).

Lemma inv_suspend : hoare I (suspend B) (fun _ s' => I s').
Proof.
  intros s Hs. unfold suspend. case_decide; [by apply I_now|].
  rewrite (I_flag s Hs). by apply I_respond, I_now.
Qed.

Lemma inv_await {A} (m : M A) :
  hoare I m (fun _ s' => I s') -> hoare I (await B m) (fun _ s' => I s').
Proof.
  intros Hm. unfold await. apply hoare_bind with (R := fun _ => I); [|done].
  eapply hoare_weaken; [apply inv_suspend|done|by intros []].
Qed.

Lemma inv_scrollTo x y : hoare I (scrollTo x y) (fun _ s' => I s').
Proof. apply hoare_modify. intros s Hs. by apply I_emit, I_scroll. Qed.

Lemma inv_tile row col : hoare I (tile B row col) (fun _ s' => I s').
Proof.
  unfold tile.
  apply hoare_bind with (R := fun _ => I).
  { eapply hoare_weaken; [apply inv_scrollTo|done|by intros []]. }
  intros _. apply hoare_bind with (R := fun _ => I).
  { eapply hoare_weaken; [apply inv_await|done|by intros []].
    apply hoare_modify. intros s Hs. by apply I_emit. }
  intros _. apply hoare_bind with (R := fun _ => I).
  { eapply hoare_weaken; [apply inv_await|done|by intros []].
    intros s Hs. unfold captureVisibleArea.
    destruct (captureVisibleTab B (now s)) as [|[]]; by apply I_emit. }
  intros dataUrl. apply inv_await. intros s Hs. unfold drawImageToCanvas.
  destruct (Image_onload B dataUrl); [|done].
  destruct (ctx s) as [c|] eqn:Hctx; [|done]. by apply I_draw.
Qed.

Lemma inv_grid rows cols :
  hoare I (for_loop fuel 0 rows (fun row =>
             for_loop fuel 0 cols (fun col => tile B row col)))
        (fun _ s' => I s').
Proof.
  apply (hoare_for_loop fuel rows _ (fun _ => I)); [done| |done].
  intros row _.
  apply (hoare_for_loop fuel cols _ (fun _ => I)); [done| |done].
  intros col _. eapply hoare_weaken; [apply inv_tile|done|by intros []].
Qed.

(** The [try] block from the point where the context has been stored. *)
Lemma inv_try_block_rest options :
  hoare I
    (c ← read ctx ;
     (if c is None then throw no_context else mret tt) ;;
     originalScrollX ← read scrollX ;
     originalScrollY ← read scrollY ;
     for_loop fuel 0 (Math_ceil_div (pageHeight B) (viewportHeight B)) (fun row =>
       for_loop fuel 0 (Math_ceil_div (pageWidth B) (viewportWidth B))
         (fun col => tile B row col)) ;;
     scrollTo originalScrollX originalScrollY ;;
     toDataURL ("image/" +:+ format_name (default png (format options)))
       (default (9 # 10)%Q (quality options)))
    (fun _ s' => I s').
Proof.
  apply hoare_bind with (R := fun _ => I); [by apply hoare_read|].
  intros c. apply hoare_bind with (R := fun _ => I).
  { destruct c; [by apply hoare_ret|by apply hoare_throw]. }
  intros _. apply hoare_bind with (R := fun _ => I); [by apply hoare_read|].
  intros ox. apply hoare_bind with (R := fun _ => I); [by apply hoare_read|].
  intros oy. apply hoare_bind with (R := fun _ => I).
  { eapply hoare_weaken; [apply inv_grid|done|by intros []]. }
  intros _. apply hoare_bind with (R := fun _ => I).
  { eapply hoare_weaken; [apply inv_scrollTo|done|by intros []]. }
  intros _ s Hs. unfold toDataURL. by destruct (canvas s ≫= _).
Qed.

End Invariant.

Lemma try_block_unfold B fuel options s :
  try_block B fuel options s =
  (c ← read ctx ;
   (if c is None then throw no_context else mret tt) ;;
   originalScrollX ← read scrollX ;
   originalScrollY ← read scrollY ;
   for_loop fuel 0 (Math_ceil_div (pageHeight B) (viewportHeight B)) (fun row =>
     for_loop fuel 0 (Math_ceil_div (pageWidth B) (viewportWidth B))
       (fun col => tile B row col)) ;;
   scrollTo originalScrollX originalScrollY ;;
   toDataURL ("image/" +:+ format_name (default png (format options)))
     (default (9 # 10)%Q (quality options)))
    (set_ctx (if getContext_2d B then Some (length (heap s)) else None)
       (set_canvas (Some (length (heap s)))
          (set_heap (heap s ++ [{| width := pageWidth B; height := pageHeight B;
                                   drawn := [] |}]) s))).
Proof. reflexivity. Qed.

Lemma try_block_isolated B fuel options s0 :
  match try_block B fuel options (set_isCapturing true s0) with
  | Returned _ s' => isolated s0 s'
  | OutOfFuel => True
  | Overlap => False
  end.
Proof.
  rewrite try_block_unfold.
  refine (inv_try_block_rest B fuel (isolated s0) _ _ _ _ _ _ options _ _).
  - by intros s [? _].
  - done.
  - done.
  - done.
  - done.
  - intros s c img x y (Hflag & [Hc|Hc] & Hheap) Hctx; [congruence|].
    assert (c = length (heap s0)) as -> by congruence.
    split_and!; [done|by right|]. simpl. by rewrite take_alter_ge.
  - split_and!; simpl; [done|destruct (getContext_2d B); auto|].
    by rewrite take_app_length.
Qed.

(** A session draws on the canvas it allocates and on no other: whatever
    the browser does and however the session ends, the canvases that
    existed when it was invoked are unchanged afterwards, and exactly one
    canvas has been added. *)
Theorem captureFullPage_isolated B fuel options s r s' :
  isCapturing s = false ->
  captureFullPage B fuel options s = Returned r s' ->
  take (length (heap s)) (heap s') = heap s /\
  length (heap s') = S (length (heap s)).
Proof.
  intros Hidle Hrun.
  pose proof (captureFullPage_idle B fuel options s Hidle) as Hactive.
  rewrite Hrun in Hactive. destruct Hactive as (_ & _ & _ & Hlen & _).
  split; [|done].
  rewrite captureFullPage_unfold, Hidle in Hrun. unfold try_finally in Hrun.
  pose proof (try_block_isolated B fuel options s) as Hinv.
  destruct (try_block B fuel options _) as [r' s1| |]; [|done..].
  injection Hrun as <- <-. rewrite cleanup_heap. by destruct Hinv as (_ & _ & ?).
Qed.

(** A session that fails at its first tile, started with a canvas of an
    earlier session still in memory. *)
Lemma captureFullPage_isolated_second_session :
  let B := unanswering (example_document 1000 1000 400 400) in
  let s := {| isCapturing := false; canvas := None; ctx := None;
              heap := [{| width := 800; height := 600; drawn := [("tile@2", 0, 0)] |}];
              scrollX := 0; scrollY := 0; now := 4; log := []; responses := [] |} in
  isCapturing s = false /\
  exists r s',
    captureFullPage B 1000 no_options s = Returned r s' /\
    take (length (heap s)) (heap s') = heap s /\
    length (heap s') = S (length (heap s)).
Proof.
  intros B s. split; [reflexivity|].
  destruct (captureFullPage B 1000 no_options s) as [r s'| |] eqn:Hrun;
    [|exfalso; vm_compute in Hrun; discriminate Hrun..].
  exists r, s'. split; [reflexivity|].
  exact (captureFullPage_isolated B 1000 no_options s r s' eq_refl Hrun).
Defined.

(** ** The outcome of a session under any browser *)

Lemma elem_of_row_major rows cols row col :
  (row, col) ∈ row_major rows cols <-> 0 <= row < rows /\ 0 <= col < cols.
Proof.
  unfold row_major. rewrite list_elem_of_bind. split.
  - intros (r & Hin & Hr). apply list_elem_of_fmap in Hin as (c & [= -> ->] & Hc).
    apply elem_of_seqZ in Hr, Hc. lia.
  - intros [Hr Hc]. exists row. split.
    + apply list_elem_of_fmap. exists col. split; [done|]. apply elem_of_seqZ. lia.
    + apply elem_of_seqZ. lia.
Qed.

Section AnyOutcome.
Variable B : Browser.
Variable fuel : nat.
Variable options : CaptureOptions.
Variable s0 : State.

Local Abbreviation tiling := (tiling B s0).

Lemma tile_outcome tiles row col :
  hoare (tiling tiles) (tile B row col)
    (fun r s' =>
       match r with
       | Ok _ => tiling (tiles ++ [(row, col)]) s'
       | Throw e => stopped_at B s0 tiles (row, col) s' e
       end).
Proof.
  intros s (Hflag & Hcv & Hctx & Hnow & Hprov & Hlog & cv & Hheap & Hw & Hh
            & Hdrawn & Himg).
  unfold tile, await, scrollTo, wait, modify. rewrite !bind_unfold.
  edestruct suspend_busy as [rs1 ->]; [done|]. rewrite !bind_unfold.
  edestruct suspend_busy as [rs2 ->]; [done|]. unfold captureVisibleArea.
  simpl (now _). replace (S (S (now s))) with (capture_time (now s0) (length tiles))
    by (unfold capture_time; lia).
  assert (Hstop : forall e s',
            refused B (capture_time (now s0) (length tiles)) e ->
            log s' = log s ++ [ScrollTo (col * viewportWidth B) (row * viewportHeight B);
                               Wait 100; CaptureVisibleArea] ->
            heap s' = heap s ->
            stopped_at B s0 tiles (row, col) s' e).
  { intros e s' Href Hlog' Hheap'. split_and!; [done..| |].
    - rewrite Hlog', Hlog, <- (assoc_L (++)). done.
    - exists cv. by rewrite Hheap'. }
  destruct (captureVisibleTab B (capture_time (now s0) (length tiles)))
    as [m|[] d e] eqn:Htile.
  - apply Hstop; simpl; [|by rewrite <- !(assoc_L (++))|done].
    unfold refused. by rewrite Htile.
  - rewrite !bind_unfold.
    edestruct suspend_busy as [rs3 ->]; [done|].
    unfold drawImageToCanvas. destruct (Image_onload B d) eqn:Hload.
    + simpl. rewrite Hctx. split_and!; simpl; auto.
      * rewrite length_app. unfold capture_time. simpl. lia.
      * apply provided_snoc; [done|]. by exists d, e.
      * rewrite Hlog, bind_app, <- !(assoc_L (++)). simpl. done.
      * exists {| width := width cv; height := height cv;
                  drawn := drawn cv
                    ++ [(d, col * viewportWidth B, row * viewportHeight B)] |}.
        split_and!; auto.
        -- by rewrite list_lookup_alter_eq, Hheap.
        -- unfold drawn_at in *. simpl. by rewrite !fmap_app, Hdrawn.
        -- simpl. by rewrite tiles_drawn_snoc, Himg, (tile_at_provided B _ d e Htile).
    + apply Hstop; simpl; [|by rewrite <- !(assoc_L (++))|done].
      unfold refused. by rewrite Htile.
  - apply Hstop; simpl; [|by rewrite <- !(assoc_L (++))|done].
    unfold refused. by rewrite Htile.
Qed.

Lemma row_outcome tiles row cols :
  0 <= cols ->
  hoare (tiling tiles)
    (for_loop fuel 0 (Fin cols) (fun col => tile B row col))
    (fun r s' =>
       match r with
       | Ok _ => tiling (tiles ++ (pair row <$> seqZ 0 cols)) s'
       | Throw e =>
           exists col, 0 <= col < cols /\
             stopped_at B s0 (tiles ++ (pair row <$> seqZ 0 col)) (row, col) s' e
       end).
Proof.
  intros Hcols.
  apply (hoare_for_loop fuel (Fin cols) _
           (fun i s => 0 <= i <= cols /\
                       tiling (tiles ++ (pair row <$> seqZ 0 i)) s)).
  - intros s Hs. split; [lia|]. by rewrite app_nil_r.
  - intros i Hlt. apply bool_decide_eq_true in Hlt.
    intros s [Hi Hs]. pose proof (tile_outcome _ row i s Hs) as Ht.
    destruct (tile B row i s) as [[[]|e] s'| |]; try done.
    + split; [lia|]. by rewrite seqZ_snoc, fmap_app, (assoc_L (++)) by lia.
    + exists i. split; [lia|done].
  - intros i s Hlt [Hi Hs]. apply bool_decide_eq_false in Hlt.
    by replace cols with i by lia.
Qed.

Lemma row_major_split rows cols row col :
  0 <= row < rows -> 0 <= col < cols ->
  exists rest,
    row_major rows cols =
      (row_major row cols ++ (pair row <$> seqZ 0 col)) ++ (row, col) :: rest.
Proof.
  intros Hrow Hcol.
  replace rows with ((row + 1) + (rows - (row + 1))) by lia.
  unfold row_major at 1. rewrite seqZ_app, bind_app by lia.
  fold (row_major (row + 1) cols). rewrite row_major_snoc by lia.
  assert (pair row <$> seqZ 0 cols =
            (pair row <$> seqZ 0 col)
              ++ (row, col) :: (pair row <$> seqZ (col + 1) (cols - (col + 1))))
    as ->.
  { replace cols with ((col + 1) + (cols - (col + 1))) at 1 by lia.
    rewrite seqZ_app, seqZ_snoc, !fmap_app by lia. simpl.
    by rewrite <- (assoc_L (++)). }
  eexists. rewrite <- !(assoc_L (++)). simpl. reflexivity.
Qed.

Lemma grid_outcome rows cols :
  0 <= rows -> 0 <= cols ->
  hoare (tiling [])
    (for_loop fuel 0 (Fin rows) (fun row =>
       for_loop fuel 0 (Fin cols) (fun col => tile B row col)))
    (fun r s' =>
       match r with
       | Ok _ => tiling (row_major rows cols) s'
       | Throw e => stopped B rows cols s0 s' e
       end).
Proof.
  intros Hrows Hcols.
  apply (hoare_for_loop fuel (Fin rows) _
           (fun i s => 0 <= i <= rows /\ tiling (row_major i cols) s)).
  - intros s Hs. split; [lia|done].
  - intros i Hlt. apply bool_decide_eq_true in Hlt.
    intros s [Hi Hs]. pose proof (row_outcome _ i cols Hcols s Hs) as Ht.
    destruct (for_loop fuel 0 (Fin cols) _ s) as [[[]|e] s'| |]; try done.
    + split; [lia|]. by rewrite row_major_snoc by lia.
    + destruct Ht as (col & Hcol & Hstop).
      destruct (row_major_split rows cols i col) as [rest Hsplit]; [lia..|].
      by eexists _, (i, col), rest.
  - intros i s Hlt [Hi Hs]. apply bool_decide_eq_false in Hlt.
    by replace rows with i by lia.
Qed.

(** What a session that passes the guard can end in, for a viewport of
    positive size. *)
Lemma captureFullPage_outcome :
  isCapturing s0 = false ->
  0 < viewportHeight B -> 0 < viewportWidth B ->
  0 <= pageHeight B -> 0 <= pageWidth B ->
  exists rows cols,
    is_ceiling rows (pageHeight B) (viewportHeight B) /\
    is_ceiling cols (pageWidth B) (viewportWidth B) /\
    match captureFullPage B fuel options s0 with
    | Returned (Ok dataUrl) s' =>
        log s' = log s0 ++ (row_major rows cols ≫= tile_events B)
                   ++ [ScrollTo (scrollX s0) (scrollY s0)] /\
        scrollX s' = scrollX s0 /\ scrollY s' = scrollY s0 /\
        width (pixels dataUrl) = pageWidth B /\
        height (pixels dataUrl) = pageHeight B /\
        drawn_at (pixels dataUrl) = offset B <$> row_major rows cols /\
        drawn (pixels dataUrl) = tiles_drawn B (now s0) (row_major rows cols) /\
        (forall k, (k < length (row_major rows cols))%nat -> provided B (now s0) k)
    | Returned (Throw e) s' =>
        (getContext_2d B = false /\ e = no_context /\ log s' = log s0 /\
         scrollX s' = scrollX s0 /\ scrollY s' = scrollY s0) \/
        (getContext_2d B = true /\ stopped B rows cols s0 s' e)
    | OutOfFuel => True
    | Overlap => False
    end.
Proof.
  intros Hidle Hvh Hvw Hph Hpw.
  destruct (Math_ceil_div_pos (pageHeight B) _ Hvh) as (rows & Erows & Hrows).
  destruct (Math_ceil_div_pos (pageWidth B) _ Hvw) as (cols & Ecols & Hcols).
  assert (0 <= rows) as Hrows0 by (eapply is_ceiling_nonneg; [..|done]; lia).
  assert (0 <= cols) as Hcols0 by (eapply is_ceiling_nonneg; [..|done]; lia).
  exists rows, cols. split_and!; [done..|].
  rewrite captureFullPage_unfold, Hidle. unfold try_finally.
  unfold try_block, createCanvas, getContext, modify, read.
  rewrite !bind_unfold. simpl. rewrite Erows, Ecols.
  destruct (getContext_2d B) eqn:Hgc; simpl.
  2: { by left. }
  unfold mret, M_ret. simpl. rewrite !bind_unfold. simpl. rewrite ?bind_unfold.
  match goal with
  | |- context [for_loop fuel 0 (Fin rows) _ ?s1] =>
      assert (tiling [] s1) as Hs1
  end.
  { apply tiling_start; simpl; auto. by apply list_lookup_middle. }
  pose proof (grid_outcome rows cols Hrows0 Hcols0 _ Hs1) as Hgrid.
  destruct (for_loop fuel 0 (Fin rows) _ _) as [[[]|e] s2| |]; try done.
  - destruct Hgrid as (Hflag & Hcv & Hctx & Hnow & Hprov & Hlog & cv & Hheap
                       & Hw & Hh & Hdrawn & Himg).
    unfold scrollTo, modify, toDataURL. rewrite !bind_unfold. simpl.
    rewrite Hcv. simpl. rewrite Hheap.
    rewrite ?cleanup_log, ?cleanup_scrollX, ?cleanup_scrollY. simpl.
    split_and!; try done. by rewrite Hlog, <- (assoc_L (++)).
  - right. split; [done|].
    destruct Hgrid as (before & t & rest & Hsplit & Hprov & Href & Hlog & Hcv).
    exists before, t, rest. split; [done|].
    split_and!; [done..| |]; by rewrite ?cleanup_log, ?cleanup_heap.
Qed.

End AnyOutcome.

(** No partial result: whatever the browser does, a session that
    returns an image has captured and drawn every tile of the grid, in
    row-major order, and has scrolled back to where it started. The
    provider has answered the request for every tile with an image that
    decoded, and the image returned holds exactly these images, each at
    the offset of its tile. *)
Theorem captureFullPage_no_partial_result B fuel options s dataUrl s' :
  isCapturing s = false ->
  0 < viewportHeight B -> 0 < viewportWidth B ->
  0 <= pageHeight B -> 0 <= pageWidth B ->
  captureFullPage B fuel options s = Returned (Ok dataUrl) s' ->
  exists rows cols,
    is_ceiling rows (pageHeight B) (viewportHeight B) /\
    is_ceiling cols (pageWidth B) (viewportWidth B) /\
    log s' = log s ++ (row_major rows cols ≫= tile_events B)
               ++ [ScrollTo (scrollX s) (scrollY s)] /\
    drawn_at (pixels dataUrl) = offset B <$> row_major rows cols /\
    (forall k, (k < length (row_major rows cols))%nat -> provided B (now s) k) /\
    drawn (pixels dataUrl) = tiles_drawn B (now s) (row_major rows cols) /\
    scrollX s' = scrollX s /\ scrollY s' = scrollY s.
Proof.
  intros Hidle Hvh Hvw Hph Hpw Hrun.
  destruct (captureFullPage_outcome B fuel options s Hidle Hvh Hvw Hph Hpw)
    as (rows & cols & Hrows & Hcols & Hout).
  rewrite Hrun in Hout.
  destruct Hout as (Hlog & Hx & Hy & _ & _ & Hdrawn & Himg & Hprov).
  by exists rows, cols.
Qed.

(** A session during which two competing messages arrive. *)
Lemma captureFullPage_no_partial_result_contended :
  let B := contended (example_document 1000 1000 400 400) in
  let s := idle 120 340 in
  (isCapturing s = false /\ 0 < viewportHeight B /\ 0 < viewportWidth B /\
   0 <= pageHeight B /\ 0 <= pageWidth B) /\
  exists dataUrl s',
    captureFullPage B 1000 no_options s = Returned (Ok dataUrl) s' /\
    exists rows cols,
      is_ceiling rows (pageHeight B) (viewportHeight B) /\
      is_ceiling cols (pageWidth B) (viewportWidth B) /\
      log s' = log s ++ (row_major rows cols ≫= tile_events B)
                 ++ [ScrollTo (scrollX s) (scrollY s)] /\
      drawn_at (pixels dataUrl) = offset B <$> row_major rows cols /\
      (forall k, (k < length (row_major rows cols))%nat -> provided B (now s) k) /\
      drawn (pixels dataUrl) = tiles_drawn B (now s) (row_major rows cols) /\
      scrollX s' = scrollX s /\ scrollY s' = scrollY s.
Proof.
  intros B s.
  assert (0 < viewportHeight B) as Hvh by reflexivity.
  assert (0 < viewportWidth B) as Hvw by reflexivity.
  assert (0 <= pageHeight B) as Hph by (vm_compute; discriminate).
  assert (0 <= pageWidth B) as Hpw by (vm_compute; discriminate).
  split; [by split_and!|].
  destruct (captureFullPage B 1000 no_options s) as [[dataUrl|e] s'| |] eqn:Hrun;
    [|exfalso; vm_compute in Hrun; discriminate Hrun..].
  exists dataUrl, s'. split; [reflexivity|].
  exact (captureFullPage_no_partial_result B 1000 no_options s dataUrl s'
           eq_refl Hvh Hvw Hph Hpw Hrun).
Defined.

(** Where a failed session stopped, and why: if the canvas has no 2d
    context the session fails before any scroll or capture and the page
    is where it was. Otherwise the error came up at one tile of the
    grid: the tiles before it in row-major order are done and drawn
    with the images captured for them; for that tile the scroll to its
    offset, the wait and the capture have been asked for; the error is
    the one the provider rejected that request with, or the
    image-load error when the image it returned did not decode; and
    nothing was asked of the page afterwards, so the scroll to that
    tile is the last one requested. *)
Theorem captureFullPage_failure_position B fuel options s e s' :
  isCapturing s = false ->
  0 < viewportHeight B -> 0 < viewportWidth B ->
  0 <= pageHeight B -> 0 <= pageWidth B ->
  captureFullPage B fuel options s = Returned (Throw e) s' ->
  (getContext_2d B = false /\ e = no_context /\ log s' = log s /\
   scrollX s' = scrollX s /\ scrollY s' = scrollY s) \/
  (getContext_2d B = true /\
   exists rows cols,
     is_ceiling rows (pageHeight B) (viewportHeight B) /\
     is_ceiling cols (pageWidth B) (viewportWidth B) /\
     stopped B rows cols s s' e).
Proof.
  intros Hidle Hvh Hvw Hph Hpw Hrun.
  destruct (captureFullPage_outcome B fuel options s Hidle Hvh Hvw Hph Hpw)
    as (rows & cols & Hrows & Hcols & Hout).
  rewrite Hrun in Hout. destruct Hout as [Hctx|[Hctx Hstop]]; [by left|].
  right. split; [done|]. by exists rows, cols.
Qed.

(** A session whose provider rejects the request for the third tile. *)
Lemma captureFullPage_failure_position_third_tile :
  let B := interrupted (example_document 1000 1000 400 400) in
  let s := idle 0 500 in
  (isCapturing s = false /\ 0 < viewportHeight B /\ 0 < viewportWidth B /\
   0 <= pageHeight B /\ 0 <= pageWidth B) /\
  exists e s',
    captureFullPage B 1000 no_options s = Returned (Throw e) s' /\
    getContext_2d B = true /\
    ((getContext_2d B = false /\ e = no_context /\ log s' = log s /\
      scrollX s' = scrollX s /\ scrollY s' = scrollY s) \/
     (getContext_2d B = true /\
      exists rows cols,
        is_ceiling rows (pageHeight B) (viewportHeight B) /\
        is_ceiling cols (pageWidth B) (viewportWidth B) /\
        stopped B rows cols s s' e)).
Proof.
  intros B s.
  assert (0 < viewportHeight B) as Hvh by reflexivity.
  assert (0 < viewportWidth B) as Hvw by reflexivity.
  assert (0 <= pageHeight B) as Hph by (vm_compute; discriminate).
  assert (0 <= pageWidth B) as Hpw by (vm_compute; discriminate).
  split; [by split_and!|].
  destruct (captureFullPage B 1000 no_options s) as [[dataUrl|e] s'| |] eqn:Hrun;
    [exfalso; vm_compute in Hrun; discriminate Hrun| |
     exfalso; vm_compute in Hrun; discriminate Hrun..].
  exists e, s'. split; [reflexivity|]. split; [reflexivity|].
  exact (captureFullPage_failure_position B 1000 no_options s e s'
           eq_refl Hvh Hvw Hph Hpw Hrun).
Defined.

(** The same session, run: it stops at the tile (0,2), with the first
    two tiles drawn and the scroll to (800,0) the last request. *)
Example captureFullPage_interrupted :
  let B := interrupted (example_document 1000 1000 400 400) in
  match captureFullPage B 1000 no_options (idle 0 500) with
  | Returned (Throw e) s' =>
      e = "The tab was closed." /\
      log s' = [ScrollTo 0 0; Wait 100; CaptureVisibleArea; DrawImage 0 0;
                ScrollTo 400 0; Wait 100; CaptureVisibleArea; DrawImage 400 0;
                ScrollTo 800 0; Wait 100; CaptureVisibleArea] /\
      drawn <$> heap s' = [[("tile@2",0,0); ("tile@5",400,0)]]
  | _ => False
  end.
Proof. by vm_compute. Qed.

Lemma row_major_covers B rows cols px py :
  0 < viewportHeight B -> 0 < viewportWidth B ->
  is_ceiling rows (pageHeight B) (viewportHeight B) ->
  is_ceiling cols (pageWidth B) (viewportWidth B) ->
  0 <= px < pageWidth B -> 0 <= py < pageHeight B ->
  exists o, o ∈ offset B <$> row_major rows cols /\ covers B o px py /\
    forall o', o' ∈ offset B <$> row_major rows cols -> covers B o' px py -> o' = o.
Proof.
  intros Hvh Hvw Hrows Hcols Hpx Hpy. unfold is_ceiling in *.
  pose proof (Z.div_mod py (viewportHeight B) ltac:(lia)) as Hy.
  pose proof (Z.mod_pos_bound py (viewportHeight B) Hvh) as Hy'.
  pose proof (Z.div_mod px (viewportWidth B) ltac:(lia)) as Hx.
  pose proof (Z.mod_pos_bound px (viewportWidth B) Hvw) as Hx'.
  set (row := py `div` viewportHeight B) in *.
  set (col := px `div` viewportWidth B) in *.
  exists (offset B (row, col)). split_and!.
  - apply list_elem_of_fmap. exists (row, col). split; [done|].
    apply elem_of_row_major. nia.
  - unfold covers, offset. simpl. lia.
  - intros o' Ho' Hc. apply list_elem_of_fmap in Ho' as ([r c] & -> & _).
    unfold covers, offset in *. simpl in *.
    assert (r = row) as -> by nia. assert (c = col) as -> by nia. done.
Qed.

Lemma row_major_inside B rows cols o :
  0 < viewportHeight B -> 0 < viewportWidth B ->
  is_ceiling rows (pageHeight B) (viewportHeight B) ->
  is_ceiling cols (pageWidth B) (viewportWidth B) ->
  o ∈ offset B <$> row_major rows cols ->
  0 <= o.1 < pageWidth B /\ 0 <= o.2 < pageHeight B.
Proof.
  intros Hvh Hvw Hrows Hcols Ho. unfold is_ceiling in *.
  apply list_elem_of_fmap in Ho as ([r c] & -> & Hin).
  apply elem_of_row_major in Hin. unfold offset. simpl. nia.
Qed.

(** The tiles of a returned image cover the page without gap or overlap
    between their rectangles: every pixel of the page lies in the
    viewport-sized rectangle of exactly one drawn tile, and every tile is
    drawn at an offset inside the page. *)
Theorem captureFullPage_covers B fuel options s dataUrl s' :
  isCapturing s = false ->
  0 < viewportHeight B -> 0 < viewportWidth B ->
  0 <= pageHeight B -> 0 <= pageWidth B ->
  captureFullPage B fuel options s = Returned (Ok dataUrl) s' ->
  (forall px py, 0 <= px < pageWidth B -> 0 <= py < pageHeight B ->
     exists o, o ∈ drawn_at (pixels dataUrl) /\ covers B o px py /\
       forall o', o' ∈ drawn_at (pixels dataUrl) -> covers B o' px py -> o' = o) /\
  (forall o, o ∈ drawn_at (pixels dataUrl) ->
     0 <= o.1 < pageWidth B /\ 0 <= o.2 < pageHeight B).
Proof.
  intros Hidle Hvh Hvw Hph Hpw Hrun.
  destruct (captureFullPage_outcome B fuel options s Hidle Hvh Hvw Hph Hpw)
    as (rows & cols & Hrows & Hcols & Hout).
  rewrite Hrun in Hout. destruct Hout as (_ & _ & _ & _ & _ & -> & _).
  split.
  - intros px py Hpx Hpy. by apply row_major_covers.
  - intros o Ho. by eapply row_major_inside.
Qed.

(** The tiles of a 1000 by 1000 page under a 400 by 400 viewport. *)
Lemma captureFullPage_covers_1000_400 :
  let B := answering (example_document 1000 1000 400 400) in
  let s := idle 0 0 in
  (isCapturing s = false /\ 0 < viewportHeight B /\ 0 < viewportWidth B /\
   0 <= pageHeight B /\ 0 <= pageWidth B) /\
  exists dataUrl s',
    captureFullPage B 1000 no_options s = Returned (Ok dataUrl) s' /\
    (forall px py, 0 <= px < pageWidth B -> 0 <= py < pageHeight B ->
       exists o, o ∈ drawn_at (pixels dataUrl) /\ covers B o px py /\
         forall o', o' ∈ drawn_at (pixels dataUrl) -> covers B o' px py -> o' = o) /\
    (forall o, o ∈ drawn_at (pixels dataUrl) ->
       0 <= o.1 < pageWidth B /\ 0 <= o.2 < pageHeight B).
Proof.
  intros B s.
  assert (0 < viewportHeight B) as Hvh by reflexivity.
  assert (0 < viewportWidth B) as Hvw by reflexivity.
  assert (0 <= pageHeight B) as Hph by (vm_compute; discriminate).
  assert (0 <= pageWidth B) as Hpw by (vm_compute; discriminate).
  split; [by split_and!|].
  destruct (captureFullPage B 1000 no_options s) as [[dataUrl|e] s'| |] eqn:Hrun;
    [|exfalso; vm_compute in Hrun; discriminate Hrun..].
  exists dataUrl, s'. split; [reflexivity|].
  exact (captureFullPage_covers B 1000 no_options s dataUrl s'
           eq_refl Hvh Hvw Hph Hpw Hrun).
Defined.

(** ** Competing messages leave the session as it is *)

Lemma forget_responses_eq s1 s2 :
  forget_responses s1 = forget_responses s2 ->
  isCapturing s1 = isCapturing s2 /\ canvas s1 = canvas s2 /\ ctx s1 = ctx s2 /\
  heap s1 = heap s2 /\ scrollX s1 = scrollX s2 /\ scrollY s1 = scrollY s2 /\
  now s1 = now s2 /\ log s1 = log s2.
Proof. intros H. by injection H. Qed.

Lemma forget_responses_intro s1 s2 :
  isCapturing s1 = isCapturing s2 -> canvas s1 = canvas s2 -> ctx s1 = ctx s2 ->
  heap s1 = heap s2 -> scrollX s1 = scrollX s2 -> scrollY s1 = scrollY s2 ->
  now s1 = now s2 -> log s1 = log s2 ->
  forget_responses s1 = forget_responses s2.
Proof. unfold forget_responses. by intros -> -> -> -> -> -> -> ->. Qed.

Ltac forget :=
  match goal with
  | H : forget_responses ?a = forget_responses ?b |- _ =>
      destruct (forget_responses_eq a b H) as (? & ? & ? & ? & ? & ? & ? & ?)
  end.

Ltac alike_done :=
  split_and!;
    [done..|first [done|apply forget_responses_intro; simpl; congruence]|done].

Lemma alike_bind {A C} (m1 m2 : M A) (k1 k2 : A -> M C) :
  alike m1 m2 -> (forall a, alike (k1 a) (k2 a)) -> alike (m1 ≫= k1) (m2 ≫= k2).
Proof.
  intros Hm Hk s1 s2 Hflag Heq. rewrite !bind_unfold.
  specialize (Hm s1 s2 Hflag Heq).
  destruct (m1 s1) as [[a1|e1] s1'| |], (m2 s2) as [[a2|e2] s2'| |]; try done;
    destruct Hm as (Hr & Hflag' & Heq' & Hresp); try discriminate Hr.
  - injection Hr as <-. specialize (Hk a1 s1' s2' Hflag' Heq').
    destruct (k1 a1 s1') as [r1 s1''| |], (k2 a1 s2') as [r2 s2''| |]; try done.
    destruct Hk as (? & ? & ? & ?). split_and!; congruence.
  - injection Hr as ->. by split_and!.
Qed.

Lemma alike_modify f :
  (forall s, isCapturing (f s) = isCapturing s) ->
  (forall s, responses (f s) = responses s) ->
  (forall s1 s2, forget_responses s1 = forget_responses s2 ->
     forget_responses (f s1) = forget_responses (f s2)) ->
  alike (modify f) (modify f).
Proof.
  intros Hflag Hresp Hf s1 s2 Hs1 Heq. unfold modify.
  split_and!; [done|by rewrite Hflag|by apply Hf|done].
Qed.

Lemma alike_read {A} (f : State -> A) :
  (forall s1 s2, forget_responses s1 = forget_responses s2 -> f s1 = f s2) ->
  alike (read f) (read f).
Proof.
  intros Hf s1 s2 Hs1 Heq. unfold read.
  split_and!; [by rewrite (Hf s1 s2)|done..].
Qed.

Lemma alike_for_loop fuel n (body1 body2 : Z -> M unit) :
  (forall i, alike (body1 i) (body2 i)) ->
  forall i, alike (for_loop fuel i n body1) (for_loop fuel i n body2).
Proof.
  intros Hbody. induction fuel as [|fuel IH]; intros i; simpl.
  - destruct (lt i n); [done|]. by intros s1 s2 ? ?.
  - destruct (lt i n); [|by intros s1 s2 ? ?].
    apply alike_bind; [apply Hbody|]. intros _. apply IH.
Qed.

Section Quiet.
Variable B : Browser.

Lemma alike_suspend : alike (suspend B) (suspend (quiet B)).
Proof.
  intros s1 s2 Hflag Heq. unfold suspend. simpl. rewrite Hflag. forget.
  case_decide; simpl; alike_done.
Qed.

Lemma alike_await {A} (m1 m2 : M A) :
  alike m1 m2 -> alike (await B m1) (await (quiet B) m2).
Proof. intros Hm. unfold await. apply alike_bind; [apply alike_suspend|done]. Qed.

Lemma alike_scrollTo x y : alike (scrollTo x y) (scrollTo x y).
Proof.
  apply alike_modify; [done..|]. intros s1 s2 Heq. forget.
  apply forget_responses_intro; simpl; congruence.
Qed.

Lemma alike_tile row col : alike (tile B row col) (tile (quiet B) row col).
Proof.
  unfold tile.
  change (viewportWidth (quiet B)) with (viewportWidth B).
  change (viewportHeight (quiet B)) with (viewportHeight B).
  apply alike_bind; [apply alike_scrollTo|intros _].
  apply alike_bind.
  { apply alike_await, alike_modify; [done..|]. intros s1 s2 Heq. forget.
    apply forget_responses_intro; simpl; congruence. }
  intros _. apply alike_bind.
  { apply alike_await. intros s1 s2 Hflag Heq. unfold captureVisibleArea. simpl.
    forget. replace (now s2) with (now s1) by done.
    destruct (captureVisibleTab B (now s1)) as [|[]]; alike_done. }
  intros dataUrl. apply alike_await. intros s1 s2 Hflag Heq.
  unfold drawImageToCanvas. simpl. forget.
  destruct (Image_onload B dataUrl); [|alike_done].
  replace (ctx s2) with (ctx s1) by done.
  destruct (ctx s1) as [c|] eqn:Hc; alike_done.
Qed.

Lemma alike_try_block fuel options :
  alike (try_block B fuel options) (try_block (quiet B) fuel options).
Proof.
  unfold try_block.
  change (pageWidth (quiet B)) with (pageWidth B).
  change (pageHeight (quiet B)) with (pageHeight B).
  change (viewportWidth (quiet B)) with (viewportWidth B).
  change (viewportHeight (quiet B)) with (viewportHeight B).
  change (getContext (quiet B)) with (getContext B).
  apply alike_bind.
  { apply alike_modify; [done..|]. intros s1 s2 Heq. forget.
    apply forget_responses_intro; simpl; congruence. }
  intros _. apply alike_bind.
  { apply alike_modify; [done..|]. intros s1 s2 Heq. forget.
    apply forget_responses_intro; simpl; try congruence.
    destruct (getContext_2d B); congruence. }
  intros _. apply alike_bind.
  { apply alike_read. intros s1 s2 Heq. by forget. }
  intros c. apply alike_bind.
  { destruct c; by intros s1 s2 ? ?. }
  intros _. apply alike_bind.
  { apply alike_read. intros s1 s2 Heq. by forget. }
  intros ox. apply alike_bind.
  { apply alike_read. intros s1 s2 Heq. by forget. }
  intros oy. simpl. apply alike_bind.
  { apply alike_for_loop. intros row. apply alike_for_loop. intros col.
    apply alike_tile. }
  intros _. apply alike_bind; [apply alike_scrollTo|intros _].
  intros s1 s2 Hflag Heq. unfold toDataURL. forget.
  replace (canvas s2) with (canvas s1) by done.
  replace (heap s2) with (heap s1) by done.
  destruct (canvas s1 ≫= _); alike_done.
Qed.

(** Competing invocations delivered during a session change nothing but
    the record of the responses they are sent: the session ends exactly
    as it does when no such message arrives, with the same result (image
    or error), the same calls on the page and the tile provider, the same
    canvases and the same scroll position. *)
Theorem captureFullPage_arrivals fuel options s :
  isCapturing s = false ->
  match captureFullPage B fuel options s,
        captureFullPage (quiet B) fuel options s with
  | Returned r1 s1, Returned r2 s2 =>
      r1 = r2 /\ forget_responses s1 = forget_responses s2 /\
      responses s2 = responses s
  | OutOfFuel, OutOfFuel => True
  | _, _ => False
  end.
Proof.
  intros Hidle. rewrite !captureFullPage_unfold, Hidle. unfold try_finally.
  pose proof (alike_try_block fuel options (set_isCapturing true s)
                (set_isCapturing true s) eq_refl eq_refl) as H.
  destruct (try_block B fuel options (set_isCapturing true s)) as [r1 s1| |];
    destruct (try_block (quiet B) fuel options (set_isCapturing true s))
      as [r2 s2| |]; try done.
  destruct H as (-> & Hflag & Heq & Hresp). split_and!; [done| |].
  - forget.
    apply forget_responses_intro;
      rewrite ?cleanup_log, ?cleanup_scrollX, ?cleanup_scrollY, ?cleanup_heap;
      try done; unfold cleanup; simpl;
      replace (canvas s2) with (canvas s1) by done;
      destruct (canvas s1) eqn:Hc; simpl; congruence.
  - unfold cleanup. simpl. by destruct (canvas s2).
Qed.

End Quiet.

(** Two competing messages during the 1000 by 1000 session. *)
Lemma captureFullPage_arrivals_contended :
  let B := contended (example_document 1000 1000 400 400) in
  isCapturing (idle 0 0) = false /\
  match captureFullPage B 1000 no_options (idle 0 0),
        captureFullPage (quiet B) 1000 no_options (idle 0 0) with
  | Returned r1 s1, Returned r2 s2 =>
      r1 = r2 /\ forget_responses s1 = forget_responses s2 /\
      responses s2 = responses (idle 0 0)
  | OutOfFuel, OutOfFuel => True
  | _, _ => False
  end.
Proof.
  intros B. split; [reflexivity|].
  exact (captureFullPage_arrivals B 1000 no_options (idle 0 0) eq_refl).
Defined.

End ContentScriptExtras.

(** * Properties of the two scripts together *)

Module ExtensionProofs.
Import ContentScript ContentScriptProofs Extension.

Lemma for_loop_S fuel i n body s :
  lt i n = true ->
  for_loop (S fuel) i n body s = (body i ;; for_loop fuel (i + 1) n body) s.
Proof. intros Hlt. simpl. by rewrite Hlt. Qed.

Lemma unknown_action_reply C tab bg :
  reply_of (Background.onMessage C captureVisibleTab_request tab bg).1
    = Response false "" (Some "Unknown action").
Proof. reflexivity. Qed.

(** A session whose tile provider answers [success: false] with the
    error [e] fails with [e] at its first tile. *)
Lemma captureFullPage_first_tile_refused B fuel options s e :
  (forall t, exists d, captureVisibleTab B t = Response false d (Some e)) ->
  e <> "" ->
  getContext_2d B = true ->
  isCapturing s = false ->
  0 < viewportHeight B -> 0 < viewportWidth B ->
  0 < pageHeight B -> 0 < pageWidth B ->
  (0 < fuel)%nat ->
  exists s',
    captureFullPage B fuel options s = Returned (Throw e) s' /\
    log s' = log s ++ [ScrollTo 0 0; Wait 100; CaptureVisibleArea] /\
    scrollX s' = 0 /\ scrollY s' = 0 /\
    isCapturing s' = false /\ canvas s' = None.
Proof.
  intros Hrefused He Hctx Hidle Hvh Hvw Hph Hpw Hfuel.
  destruct (Math_ceil_div_pos (pageHeight B) _ Hvh) as (rows & Erows & Hrows).
  destruct (Math_ceil_div_pos (pageWidth B) _ Hvw) as (cols & Ecols & Hcols).
  assert (0 < rows) as Hrows0 by (unfold is_ceiling in Hrows; nia).
  assert (0 < cols) as Hcols0 by (unfold is_ceiling in Hcols; nia).
  rewrite captureFullPage_unfold, Hidle. unfold try_finally.
  unfold try_block, createCanvas, getContext, modify, read.
  rewrite !bind_unfold. simpl. rewrite Hctx, Erows, Ecols.
  unfold mret, M_ret. simpl. rewrite !bind_unfold. simpl. rewrite ?bind_unfold.
  destruct fuel as [|fuel]; [lia|].
  rewrite (for_loop_S fuel 0 (Fin rows)) by (apply bool_decide_eq_true; lia).
  rewrite !bind_unfold.
  rewrite (for_loop_S fuel 0 (Fin cols)) by (apply bool_decide_eq_true; lia).
  rewrite !bind_unfold.
  unfold tile, await, scrollTo, wait, modify. rewrite !bind_unfold.
  edestruct (suspend_busy B) as [rs1 ->]; [done|]. rewrite !bind_unfold.
  edestruct (suspend_busy B) as [rs2 ->]; [done|]. unfold captureVisibleArea.
  match goal with
  | |- context [captureVisibleTab B ?t] => destruct (Hrefused t) as (d & ->)
  end.
  case_decide; [done|]. simpl.
  eexists. split; [done|].
  rewrite cleanup_log, cleanup_scrollX, cleanup_scrollY. simpl.
  split_and!; try done.
  by rewrite <- !(assoc_L (++)).
Qed.

Lemma answered_by_background_refused B :
  answered_by_background B ->
  forall t, exists d, captureVisibleTab B t = Response false d (Some "Unknown action").
Proof.
  intros Hanswered t. destruct (Hanswered t) as (C & tab & bg & ->).
  exists "". apply unknown_action_reply.
Qed.

(** The background listener has no case for the message the content
    script sends for a tile. So when the tile requests are answered by
    that listener, a full-page session on a page of positive extent fails
    at its first tile with "Unknown action", after one scroll to (0, 0)
    and one capture request, and leaves the window there. *)
Theorem captureFullPage_unanswered B fuel options s :
  answered_by_background B ->
  getContext_2d B = true ->
  isCapturing s = false ->
  0 < viewportHeight B -> 0 < viewportWidth B ->
  0 < pageHeight B -> 0 < pageWidth B ->
  (0 < fuel)%nat ->
  exists s',
    captureFullPage B fuel options s = Returned (Throw "Unknown action") s' /\
    log s' = log s ++ [ScrollTo 0 0; Wait 100; CaptureVisibleArea] /\
    scrollX s' = 0 /\ scrollY s' = 0 /\
    isCapturing s' = false /\ canvas s' = None.
Proof.
  intros Hanswered Hctx Hidle Hvh Hvw Hph Hpw Hfuel.
  apply captureFullPage_first_tile_refused; try done.
  by apply answered_by_background_refused.
Qed.

Lemma unanswering_answered_by_background d :
  answered_by_background (unanswering d).
Proof.
  intros t. by exists Background.working, None, (Background.store [] None).
Qed.

(** The 1000 by 1000 page, scrolled to (0, 500). *)
Lemma captureFullPage_unanswered_1000_400 :
  let B := unanswering (example_document 1000 1000 400 400) in
  let s := idle 0 500 in
  (answered_by_background B /\ getContext_2d B = true /\ isCapturing s = false /\
   0 < viewportHeight B /\ 0 < viewportWidth B /\
   0 < pageHeight B /\ 0 < pageWidth B /\ (0 < 1000)%nat) /\
  exists s',
    captureFullPage B 1000 no_options s = Returned (Throw "Unknown action") s' /\
    log s' = log s ++ [ScrollTo 0 0; Wait 100; CaptureVisibleArea] /\
    scrollX s' = 0 /\ scrollY s' = 0 /\
    isCapturing s' = false /\ canvas s' = None.
Proof.
  intros B s.
  assert (answered_by_background B) as Hanswered
    by apply unanswering_answered_by_background.
  assert (0 < viewportHeight B) as Hvh by reflexivity.
  assert (0 < viewportWidth B) as Hvw by reflexivity.
  assert (0 < pageHeight B) as Hph by reflexivity.
  assert (0 < pageWidth B) as Hpw by reflexivity.
  assert (0 < 1000)%nat as Hfuel by lia.
  split; [by split_and!|].
  exact (captureFullPage_unanswered B 1000 no_options s
           Hanswered eq_refl eq_refl Hvh Hvw Hph Hpw Hfuel).
Defined.

Lemma handleCapture_full_failure C tab bg e :
  (exists t i, tab = Some t /\ Background.tab_id t = Some i /\ i <> 0) ->
  Background.tabs_sendMessage C
    = Background.Ok (Background.FullPageFailure (Some e)) ->
  e <> "" ->
  Background.handleCapture C Background.full tab bg =
    (Background.Ok (Background.failure e),
     Background.log_error "Capture error:" e bg).
Proof.
  intros (t & i & -> & Hid & Hi) Hsend He.
  apply BackgroundExtras.handleCapture_acquisition_error.
  unfold Background.acquisition_error. simpl. rewrite Hid.
  case_decide; [done|]. rewrite Hsend. unfold Background.or_else.
  by case_decide.
Qed.

(** In this repository a capture in full mode never yields a screenshot
    of a page of positive extent: the content script's session fails
    (with "Unknown action", or for want of a 2d context), and
    [handleCapture] answers with that failure, storing and downloading
    nothing. *)
Theorem handleCapture_full_unavailable encode B fuel s C tab bg response :
  answered_by_background B ->
  isCapturing s = false ->
  0 < viewportHeight B -> 0 < viewportWidth B ->
  0 < pageHeight B -> 0 < pageWidth B ->
  (0 < fuel)%nat ->
  full_page_response encode B fuel s = Some response ->
  Background.tabs_sendMessage C = Background.Ok response ->
  (exists t i, tab = Some t /\ Background.tab_id t = Some i /\ i <> 0) ->
  exists e,
    (e = "Unknown action" \/ e = no_context) /\
    Background.handleCapture C Background.full tab bg =
      (Background.Ok (Background.failure e),
       Background.log_error "Capture error:" e bg).
Proof.
  intros Hanswered Hidle Hvh Hvw Hph Hpw Hfuel Hresponse Hsend Htab.
  unfold full_page_response, onMessage_captureFullPage in Hresponse.
  destruct (getContext_2d B) eqn:Hctx.
  - destruct (captureFullPage_first_tile_refused B fuel no_options s
                "Unknown action" (answered_by_background_refused B Hanswered)
                ltac:(done) Hctx Hidle Hvh Hvw Hph Hpw Hfuel) as (s' & Hrun & _).
    simpl in Hresponse. rewrite Hrun in Hresponse. simpl in Hresponse.
    rewrite last_snoc in Hresponse. simpl in Hresponse.
    injection Hresponse as <-.
    exists "Unknown action". split; [by left|].
    by apply handleCapture_full_failure.
  - simpl in Hresponse. rewrite captureFullPage_unfold, Hidle in Hresponse.
    unfold try_finally, try_block, createCanvas, getContext, modify, read
      in Hresponse.
    rewrite !bind_unfold in Hresponse. simpl in Hresponse.
    rewrite Hctx in Hresponse. simpl in Hresponse.
    rewrite last_snoc in Hresponse. simpl in Hresponse.
    injection Hresponse as <-.
    exists no_context. split; [by right|].
    by apply handleCapture_full_failure.
Qed.

(** A full-mode capture of the 1000 by 1000 page. *)
Lemma handleCapture_full_unavailable_1000_400 :
  let B := unanswering (example_document 1000 1000 400 400) in
  let s := idle 0 500 in
  let response := Background.FullPageFailure (Some "Unknown action") in
  let C := {| Background.tabs_captureVisibleTab := Background.Ok "";
              Background.tabs_sendMessage := Background.Ok response;
              Background.Date_now := Background.example_date;
              Background.storage_local_get := None;
              Background.storage_local_set := None;
              Background.downloads_download := None |} in
  let tab := Some Background.example_tab in
  let bg := Background.store [] None in
  (answered_by_background B /\ isCapturing s = false /\
   0 < viewportHeight B /\ 0 < viewportWidth B /\
   0 < pageHeight B /\ 0 < pageWidth B /\ (0 < 1000)%nat /\
   full_page_response (fun _ => "") B 1000 s = Some response /\
   Background.tabs_sendMessage C = Background.Ok response /\
   exists t i, tab = Some t /\ Background.tab_id t = Some i /\ i <> 0) /\
  exists e,
    (e = "Unknown action" \/ e = no_context) /\
    Background.handleCapture C Background.full tab bg =
      (Background.Ok (Background.failure e),
       Background.log_error "Capture error:" e bg).
Proof.
  intros B s response C tab bg.
  assert (answered_by_background B) as Hanswered
    by apply unanswering_answered_by_background.
  assert (0 < viewportHeight B) as Hvh by reflexivity.
  assert (0 < viewportWidth B) as Hvw by reflexivity.
  assert (0 < pageHeight B) as Hph by reflexivity.
  assert (0 < pageWidth B) as Hpw by reflexivity.
  assert (0 < 1000)%nat as Hfuel by lia.
  assert (full_page_response (fun _ => "") B 1000 s = Some response) as Hresponse
    by (vm_compute; reflexivity).
  assert (exists t i, tab = Some t /\ Background.tab_id t = Some i /\ i <> 0) as Htab.
  { exists Background.example_tab, 7. split_and!; [reflexivity..|discriminate]. }
  split; [by split_and!|].
  exact (handleCapture_full_unavailable (fun _ => "") B 1000 s C tab bg response
           Hanswered eq_refl Hvh Hvw Hph Hpw Hfuel Hresponse eq_refl Htab).
Defined.

End ExtensionProofs.

(** ** The history tab of the options page *)

Module OptionsProofs.
Import Background Options.

Lemma totalPages_bounds o :
  Z.of_nat (length (filteredScreenshots o)) <= 12 * totalPages o
  /\ 12 * totalPages o < Z.of_nat (length (filteredScreenshots o)) + 12.
Proof.
unfold totalPages, itemsPerPage.
generalize (Z.of_nat (length (filteredScreenshots o))). intros n.
pose proof (Z.div_mod (- n) 12 ltac:(lia)) as Hd.
pose proof (Z.mod_pos_bound (- n) 12 ltac:(lia)) as Hm.
lia.
Qed.

Lemma slice_take_drop {A} (l : list A) (a b : Z) :
  0 <= a -> 0 <= b ->
  slice l a (a + b) = take (Z.to_nat b) (drop (Z.to_nat a) l).
Proof.
intros Ha Hb. unfold slice.
destruct (decide (a < 0)) as [|_]; [lia|].
destruct (decide (a + b < 0)) as [|_]; [lia|].
destruct (decide (a <= Z.of_nat (length l))) as [Hle|Hgt].
- rewrite (Z.min_l a) by lia.
  destruct (decide (a + b <= Z.of_nat (length l))) as [Hin|Hout].
  + rewrite Z.min_l by lia. f_equal. lia.
  + rewrite Z.min_r by lia.
    rewrite !take_ge; [done| |]; rewrite length_drop; lia.
- rewrite !Z.min_r by lia. rewrite Z.sub_diag. simpl.
  rewrite (drop_ge l (Z.to_nat a)) by lia. by rewrite take_nil.
Qed.

Lemma page_take_drop o p :
  1 <= p ->
  page o p = take 12 (drop (12 * Z.to_nat (p - 1)) (filteredScreenshots o)).
Proof.
intros Hp. unfold page, pageScreenshots, itemsPerPage. simpl.
rewrite slice_take_drop by lia. f_equal. f_equal. lia.
Qed.

Lemma chunks {A} (n : nat) : forall l : list A,
  (length l <= 12 * n)%nat ->
  concat ((fun k => take 12 (drop (12 * k) l)) <$> seq 0 n) = l.
Proof.
induction n as [|n IH]; intros l Hl.
- destruct l; [done|simpl in Hl; lia].
- rewrite <- cons_seq, <- fmap_S_seq, fmap_cons, <- list_fmap_compose.
  rewrite concat_cons, Nat.mul_0_r, drop_0.
  rewrite <- (take_drop 12 l) at 2. f_equal.
  rewrite <- (IH (drop 12 l)) by (rewrite length_drop; lia).
  f_equal. apply list_fmap_ext. intros _ k _. simpl.
  rewrite drop_drop. f_equal. f_equal. lia.
Qed.

Lemma length_page o p :
  1 <= p <= totalPages o -> (1 <= length (page o p) <= 12)%nat.
Proof.
intros Hp. pose proof (totalPages_bounds o) as Ht.
rewrite page_take_drop by lia. rewrite length_take, length_drop. lia.
Qed.

(** The pages of the history tab make up the filtered sequence: page 1,
    page 2, ... up to the last page, one after the other, are exactly
    [filteredScreenshots], in order, nothing shown twice and nothing left
    out; every one of these pages shows at least one record and at most
    twelve. *)
Theorem pages_partition o :
  concat (page o <$> seqZ 1 (totalPages o)) = filteredScreenshots o /\
  forall p, 1 <= p <= totalPages o -> (1 <= length (page o p) <= 12)%nat.
Proof.
split; [|apply length_page].
pose proof (totalPages_bounds o) as Ht.
unfold seqZ. rewrite <- list_fmap_compose.
etransitivity;
  [|apply (chunks (Z.to_nat (totalPages o)) (filteredScreenshots o)); lia].
f_equal. apply list_fmap_ext. intros _ k _. simpl.
rewrite page_take_drop by lia. do 3 f_equal. lia.
Qed.

Lemma pages_partition_thirty :
  let o := showing (shot <$> seqZ 1 30) 1 in
  1 <= 3 <= totalPages o /\
  concat (page o <$> seqZ 1 (totalPages o)) = filteredScreenshots o /\
  (1 <= length (page o 3) <= 12)%nat.
Proof.
intros o. split; [by vm_compute|].
split; [exact (proj1 (pages_partition o))|].
apply (proj2 (pages_partition o) 3). by vm_compute.
Defined.

(** *** The current page *)

Lemma on_a_page_filterScreenshots P o : on_a_page (filterScreenshots P o).
Proof. unfold on_a_page. simpl. lia. Qed.

Lemma on_a_page_showToast m t o : on_a_page (showToast m t o) <-> on_a_page o.
Proof. done. Qed.

Lemma on_a_page_console_error l m o :
  on_a_page (console_error l m o) <-> on_a_page o.
Proof. done. Qed.

Lemma on_a_page_changePage d o : on_a_page o -> on_a_page (changePage d o).
Proof.
intros Ho. unfold changePage. case_decide as Hd; [|done].
unfold on_a_page, totalPages in *. simpl. lia.
Qed.

(** The current page stays one of the pages there are (the first, when
    there are none) through every operation of the history tab: turning
    the page by any amount, filtering, loading, deleting and clearing,
    whether they succeed or fail. *)
Theorem on_a_page_invariant P C i d w :
  on_a_page w.1 ->
  on_a_page (changePage d w.1) /\
  on_a_page (filterScreenshots P w.1) /\
  on_a_page (loadScreenshots P C w).1 /\
  on_a_page (deleteScreenshot P C i w).1 /\
  on_a_page (clearAllScreenshots P C w).1.
Proof.
destruct w as [o bg]. simpl. intros Ho.
split_and!.
- by apply on_a_page_changePage.
- apply on_a_page_filterScreenshots.
- unfold loadScreenshots.
  destruct (sendMessage P C _ bg) as [[r|m] bg']; [destruct (response_success r)|];
    simpl; try done.
  apply on_a_page_filterScreenshots.
- unfold deleteScreenshot. destruct (confirm P); simpl; [|done].
  destruct (sendMessage P C _ bg) as [[r|m] bg']; [destruct (response_success r)|];
    simpl; try done.
  apply on_a_page_showToast, on_a_page_filterScreenshots.
- unfold clearAllScreenshots. destruct (confirm P); simpl; [|done].
  destruct (storage_set_screenshots C [] bg) as [[u|m] bg']; simpl; try done.
  apply on_a_page_showToast, on_a_page_filterScreenshots.
Qed.

Lemma on_a_page_invariant_opened :
  let w := (opened, store [shot 2; shot 1] None) in
  on_a_page w.1 /\
  on_a_page (changePage 1 w.1) /\
  on_a_page (filterScreenshots as_stored w.1) /\
  on_a_page (loadScreenshots as_stored working w).1 /\
  on_a_page (deleteScreenshot as_stored working "screenshot_1" w).1 /\
  on_a_page (clearAllScreenshots as_stored working w).1.
Proof.
intros w.
assert (Ho : on_a_page w.1) by (by vm_compute).
split; [exact Ho|].
exact (on_a_page_invariant as_stored working "screenshot_1" 1 w Ho).
Defined.

(** While the current page is one of the pages there are, the grid shows
    no empty page as long as any record passes the filter. *)
Theorem pageScreenshots_nonempty o :
  on_a_page o -> filteredScreenshots o <> [] -> pageScreenshots o <> [].
Proof.
intros [H1 H2] Hne Hnil.
pose proof (totalPages_bounds o) as Ht.
assert (Hlen : (0 < length (filteredScreenshots o))%nat).
{ destruct (filteredScreenshots o); [done|simpl; lia]. }
assert (Hp : 1 <= currentPage o <= totalPages o) by lia.
pose proof (length_page o (currentPage o) Hp) as Hl.
unfold page in Hl. destruct o as [a b c e f]. simpl in *.
rewrite Hnil in Hl. simpl in Hl. lia.
Qed.

Lemma pageScreenshots_nonempty_last_page :
  let o := showing (shot <$> seqZ 1 30) 3 in
  (on_a_page o /\ filteredScreenshots o <> []) /\ pageScreenshots o <> [].
Proof.
intros o.
assert (Ho : on_a_page o) by (by vm_compute).
assert (Hne : filteredScreenshots o <> []) by (by vm_compute).
split; [by split|].
exact (pageScreenshots_nonempty o Ho Hne).
Defined.

(** While the current page is one of the pages there are, the two
    pagination buttons agree with [changePage]: the button to the
    previous (next) page is enabled exactly when a click on it moves to
    the page before (after) the current one. *)
Theorem pagination_buttons o :
  on_a_page o ->
  (prevBtn_disabled o = false <->
   currentPage (changePage (-1) o) = currentPage o - 1) /\
  (nextBtn_disabled o = false <->
   currentPage (changePage 1 o) = currentPage o + 1).
Proof.
intros [H1 H2]. unfold prevBtn_disabled, nextBtn_disabled, changePage.
rewrite !bool_decide_eq_false.
split; case_decide as Hd; simpl; lia.
Qed.

Lemma pagination_buttons_middle_page :
  let o := showing (shot <$> seqZ 1 30) 2 in
  on_a_page o /\
  (prevBtn_disabled o = false <->
   currentPage (changePage (-1) o) = currentPage o - 1) /\
  (nextBtn_disabled o = false <->
   currentPage (changePage 1 o) = currentPage o + 1).
Proof.
intros o.
assert (Ho : on_a_page o) by (by vm_compute).
split; [exact Ho|].
exact (pagination_buttons o Ho).
Defined.

(** *** The controller's copy of the history *)

(** When the worker is reached and the storage read resolves,
    [loadScreenshots] leaves the controller holding the stored history,
    on page 1, and leaves the worker's state as it was: reading writes
    nothing. *)
Theorem loadScreenshots_in_sync P C w :
  lastError P = None -> storage_local_get C = None ->
  in_sync (loadScreenshots P C w) /\
  (loadScreenshots P C w).2 = w.2 /\
  filteredScreenshots (loadScreenshots P C w).1 = view P (history w.2) /\
  currentPage (loadScreenshots P C w).1 = 1.
Proof.
destruct w as [o bg]. intros HP HC.
unfold in_sync, loadScreenshots, sendMessage. rewrite HP.
unfold onMessage. simpl.
unfold respond_with, getScreenshotHistory, try_catch, storage_get_screenshots.
unfold mbind, M_bind. rewrite HC. simpl. done.
Qed.

Lemma loadScreenshots_in_sync_opened :
  let w := (opened, store [shot 2; shot 1] None) in
  (lastError as_stored = None /\ storage_local_get working = None) /\
  in_sync (loadScreenshots as_stored working w) /\
  (loadScreenshots as_stored working w).2 = w.2 /\
  filteredScreenshots (loadScreenshots as_stored working w).1
    = view as_stored (history w.2) /\
  currentPage (loadScreenshots as_stored working w).1 = 1.
Proof.
intros w. split; [by split|].
exact (loadScreenshots_in_sync as_stored working w eq_refl eq_refl).
Defined.

(** A controller that holds the stored history still holds it after
    [deleteScreenshot], whatever happens: the user declines, no listener
    is reached, the storage read or write rejects, or the record is
    removed on both sides. *)
Theorem deleteScreenshot_in_sync P C i w :
  in_sync w -> in_sync (deleteScreenshot P C i w).
Proof.
destruct w as [o bg]. unfold in_sync. simpl. intros Hs.
unfold deleteScreenshot. destruct (confirm P); simpl; [|done].
unfold sendMessage. destruct (lastError P); simpl; [done|].
unfold onMessage. simpl.
unfold respond_with, Background.deleteScreenshot, try_catch,
  storage_get_screenshots, storage_set_screenshots.
unfold mbind, M_bind.
destruct (storage_local_get C); simpl; [done|].
destruct (storage_local_set C); simpl; [done|].
unfold history. simpl. by rewrite Hs.
Qed.

Lemma deleteScreenshot_in_sync_two :
  let w := (showing [shot 2; shot 1] 1, store [shot 2; shot 1] None) in
  in_sync w /\ in_sync (deleteScreenshot as_stored working "screenshot_1" w).
Proof.
intros w.
assert (Hs : in_sync w) by reflexivity.
split; [exact Hs|].
exact (deleteScreenshot_in_sync as_stored working "screenshot_1" w Hs).
Defined.

(** A controller that holds the stored history still holds it after
    [clearAllScreenshots]: declined or rejected by the storage, nothing
    changes on either side; otherwise both are empty. The stored
    settings are never touched. *)
Theorem clearAllScreenshots_in_sync P C w :
  in_sync w ->
  in_sync (clearAllScreenshots P C w) /\
  settings (storage (clearAllScreenshots P C w).2) = settings (storage w.2) /\
  (confirm P = true -> storage_local_set C = None ->
   history (clearAllScreenshots P C w).2 = []).
Proof.
destruct w as [o bg]. unfold in_sync. simpl. intros Hs.
unfold clearAllScreenshots, storage_set_screenshots.
destruct (confirm P); simpl; [|by split_and!].
destruct (storage_local_set C); simpl; by split_and!.
Qed.

Lemma clearAllScreenshots_in_sync_two :
  let w := (showing [shot 2; shot 1] 1,
            store [shot 2; shot 1] (Some ten_at_most)) in
  (in_sync w /\ confirm as_stored = true /\ storage_local_set working = None) /\
  in_sync (clearAllScreenshots as_stored working w) /\
  settings (storage (clearAllScreenshots as_stored working w).2)
    = settings (storage w.2) /\
  history (clearAllScreenshots as_stored working w).2 = [].
Proof.
intros w.
assert (Hs : in_sync w) by reflexivity.
split; [by split_and!|].
pose proof (clearAllScreenshots_in_sync as_stored working w Hs) as (H1 & H2 & H3).
split_and!; [exact H1|exact H2|exact (H3 eq_refl eq_refl)].
Defined.

End OptionsProofs.

(** ** The settings tab of the options page *)

Module SettingsTabProofs.
Import SettingsTab.

(** [saveSettings] does not read the two check boxes: whatever their
    state (or absent), it leaves the same settings, toasts and console,
    with [autoDownload] and [saveHistory] both true; when the write
    resolves, these are the settings stored. *)
Theorem saveSettings_check_boxes parseInt C f a b o :
  saveSettings parseInt C (with_check_boxes a b f) o = saveSettings parseInt C f o /\
  autoDownload (settings (saveSettings parseInt C f o)) = true /\
  saveHistory (settings (saveSettings parseInt C f o)) = true /\
  (Background.storage_local_set C = None ->
   stored (saveSettings parseInt C f o)
     = Some (settings (saveSettings parseInt C f o))).
Proof.
assert (Hor : forall x, checked_or x true = true).
{ intros x. unfold checked_or. apply orb_true_r. }
unfold saveSettings. simpl. rewrite !Hor.
destruct (Background.storage_local_set C); simpl; by split_and!.
Qed.

Lemma saveSettings_check_boxes_unchecked :
  let o' := saveSettings parseInt_example Background.working both_unchecked opened in
  Background.storage_local_set Background.working = None /\
  saveSettings parseInt_example Background.working
    (with_check_boxes (Some true) (Some true) both_unchecked) opened = o' /\
  autoDownload (settings o') = true /\
  saveHistory (settings o') = true /\
  stored o' = Some (settings o').
Proof.
intros o'. split; [reflexivity|].
pose proof (saveSettings_check_boxes parseInt_example Background.working
              both_unchecked (Some true) (Some true) opened) as (H1 & H2 & H3 & H4).
split_and!; [exact H1|exact H2|exact H3|exact (H4 eq_refl)].
Defined.

End SettingsTabProofs.

(** ** The popup *)

Module PopupProofs.
Import Background BackgroundProofs Popup.

Lemma onMessage_capture C mode tab bg :
  onMessage C {| action := "capture"; message_mode := mode; message_id := "" |}
    tab bg
  = let '(r, bg') := Background.handleCapture C mode tab bg in
    match r with
    | Ok a => (CaptureResult a, bg')
    | Throw e => (ErrorResponse e, log_error "Capture failed:" e bg')
    end.
Proof.
unfold onMessage, respond_with. simpl.
destruct (Background.handleCapture C mode tab bg) as [[a|e] bg']; done.
Qed.

(** A capture requested from the popup window fails: the browser hands
    the listener no [sender.tab] for it, [handleCapture] answers with
    the error "No active tab found", and the popup shows it as a
    failure, with no preview and the button enabled again; nothing is
    stored and no download starts. *)
Theorem handleCapture_from_popup_window W C mode w :
  lastError W = None -> sender_tab W = None ->
  status (Popup.handleCapture W C mode w).1
    = Some ("截图失败: No active tab found", error_status) /\
  preview (Popup.handleCapture W C mode w).1 = None /\
  captureBtn_disabled (Popup.handleCapture W C mode w).1 = false /\
  storage (Popup.handleCapture W C mode w).2 = storage w.2 /\
  downloads (Popup.handleCapture W C mode w).2 = downloads w.2.
Proof.
destruct w as [o bg]. intros HL HT.
unfold Popup.handleCapture, sendMessage. rewrite HL, HT, onMessage_capture.
rewrite (BackgroundExtras.handleCapture_acquisition_error C mode None
           "No active tab found" bg eq_refl).
simpl. by split_and!.
Qed.

Lemma handleCapture_from_popup_window_working :
  let w' := Popup.handleCapture popup_window working visible (opened, store [] None) in
  (lastError popup_window = None /\ sender_tab popup_window = None) /\
  status w'.1 = Some ("截图失败: No active tab found", error_status) /\
  preview w'.1 = None /\
  captureBtn_disabled w'.1 = false /\
  storage w'.2 = storage (store [] None) /\
  downloads w'.2 = downloads (store [] None).
Proof.
intros w'. split; [by split|].
exact (handleCapture_from_popup_window popup_window working visible
         (opened, store [] None) eq_refl eq_refl).
Defined.

(** Whenever the popup shows the success status, the capture has gone
    through: the record it names is the newest of the stored history,
    its image is the one in the preview, and the last download started
    is that image under that filename. *)
Theorem handleCapture_success_status W C mode w m :
  status (Popup.handleCapture W C mode w).1 = Some (m, success_status) ->
  exists r,
    head (history (Popup.handleCapture W C mode w).2) = Some r /\
    m = "截图成功！文件名: " +:+ filename r /\
    preview (Popup.handleCapture W C mode w).1 = Some (dataUrl r) /\
    last (downloads (Popup.handleCapture W C mode w).2)
      = Some (dataUrl r, filename r).
Proof.
destruct w as [o bg].
unfold Popup.handleCapture, sendMessage.
destruct (lastError W); [simpl; discriminate|].
rewrite onMessage_capture.
destruct (acquisition_error C mode (sender_tab W)) as [e|] eqn:Hacq.
{ rewrite (BackgroundExtras.handleCapture_acquisition_error C mode _ e bg Hacq).
  simpl. discriminate. }
destruct (BackgroundExtras.acquisition_error_None C mode _ Hacq) as [d Hd].
rewrite (handleCapture_acquired C mode _ d bg Hd).
destruct (BackgroundExtras.storage_works_dec C) as [Hw|Hw].
- rewrite (saveScreenshot_ok C _ bg Hw).
  unfold downloadScreenshot, try_catch.
  destruct (downloads_download C) as [e|]; [simpl; discriminate|].
  simpl. case_bool_decide as Hne; simpl; [|discriminate].
  intros Hm. injection Hm as <-.
  exists (record_of C (sender_tab W) d). split_and!; try done.
  by rewrite last_snoc.
- destruct (saveScreenshot_fails C (record_of C (sender_tab W) d) bg Hw) as [e ->].
  simpl. discriminate.
Qed.

Lemma handleCapture_success_status_in_a_tab :
  let w' := Popup.handleCapture in_a_tab working visible (opened, store [] None) in
  let m := "截图成功！文件名: screenshot_20231114_2213_1700000000000.png" in
  status w'.1 = Some (m, success_status) /\
  exists r,
    head (history w'.2) = Some r /\
    m = "截图成功！文件名: " +:+ filename r /\
    preview w'.1 = Some (dataUrl r) /\
    last (downloads w'.2) = Some (dataUrl r, filename r).
Proof.
intros w' m.
assert (Hs : status w'.1 = Some (m, success_status)) by (by vm_compute).
split; [exact Hs|].
exact (handleCapture_success_status in_a_tab working visible
         (opened, store [] None) m Hs).
Defined.

End PopupProofs.
